(** * checked_cast: runtime-checked numeric conversion and call decorator

    A shallow embedding of [checked_cast.h] and of the demonstration
    program [main.cpp], followed by the properties of the checked
    conversion, of the deferred-conversion container and of the call
    wrapper.

    The embedding fixes the target that [main.cpp] is written for: an LP64
    GNU/Linux system on which plain [char] is signed and eight bits wide
    (the program expects 142 not to fit in a [char]), [size_t] is
    [unsigned long] and [ssize_t] is [long]. *)

From Stdlib Require Import ZArith Bool List String Ascii Lia.
From Stdlib Require Import Floats.SpecFloat.
Import ListNotations.
Local Open Scope Z_scope.

(** ** Types *)

(** The types for which [std::is_integral] holds. *)
Inductive int_type : Type :=
| t_bool | t_char | t_schar | t_uchar | t_wchar | t_char16 | t_char32
| t_short | t_ushort | t_int | t_uint | t_long | t_ulong | t_llong | t_ullong.

Inductive float_type : Type := t_float | t_double.

(** What a pointer points to; [p_named] stands for any other object type. *)
Inductive pointee : Type :=
| p_void | p_char | p_FILE | p_named (name : string).

Inductive ctype : Type :=
| Integral (i : int_type)
| Floating (f : float_type)
| Pointer (to_const : bool) (to : pointee).

Definition size_t : ctype := Integral t_ulong.
Definition ssize_t : ctype := Integral t_long.

Definition int_type_eqb (a b : int_type) : bool :=
  match a, b with
  | t_bool, t_bool | t_char, t_char | t_schar, t_schar | t_uchar, t_uchar
  | t_wchar, t_wchar | t_char16, t_char16 | t_char32, t_char32
  | t_short, t_short | t_ushort, t_ushort | t_int, t_int | t_uint, t_uint
  | t_long, t_long | t_ulong, t_ulong | t_llong, t_llong
  | t_ullong, t_ullong => true
  | _, _ => false
  end.

Definition float_type_eqb (a b : float_type) : bool :=
  match a, b with
  | t_float, t_float | t_double, t_double => true
  | _, _ => false
  end.

Definition pointee_eqb (a b : pointee) : bool :=
  match a, b with
  | p_void, p_void | p_char, p_char | p_FILE, p_FILE => true
  | p_named x, p_named y => String.eqb x y
  | _, _ => false
  end.

(** [std::is_same<A, B>::value] *)
Definition is_same (A B : ctype) : bool :=
  match A, B with
  | Integral a, Integral b => int_type_eqb a b
  | Floating a, Floating b => float_type_eqb a b
  | Pointer ca a, Pointer cb b => Bool.eqb ca cb && pointee_eqb a b
  | _, _ => false
  end.

(** [std::is_integral<T>::value] *)
Definition is_integral (T : ctype) : bool :=
  match T with
  | Integral _ => true
  | _ => false
  end.

(** [std::is_signed] restricted to the integral types. *)
Definition is_signed (t : int_type) : bool :=
  match t with
  | t_char | t_schar | t_wchar | t_short | t_int | t_long | t_llong => true
  | t_bool | t_uchar | t_char16 | t_char32 | t_ushort | t_uint | t_ulong
  | t_ullong => false
  end.

(** Width: the number of value bits, plus one for the sign of a signed
    type. *)
Definition bits (t : int_type) : Z :=
  match t with
  | t_bool => 1
  | t_char | t_schar | t_uchar => 8
  | t_short | t_ushort | t_char16 => 16
  | t_int | t_uint | t_wchar | t_char32 => 32
  | t_long | t_ulong | t_llong | t_ullong => 64
  end.

(** [std::numeric_limits<t>::min()] and [max()] *)
Definition min_of (t : int_type) : Z :=
  if is_signed t then - 2 ^ (bits t - 1) else 0.

Definition max_of (t : int_type) : Z :=
  if is_signed t then 2 ^ (bits t - 1) - 1 else 2 ^ bits t - 1.

Definition in_range (t : int_type) (n : Z) : bool :=
  (min_of t <=? n) && (n <=? max_of t).

(** ** Values *)

(** A value together with its static type.  An integer is kept as the
    mathematical integer it denotes, a floating-point number as an IEEE 754
    datum, a pointer as an address. *)
Inductive value : Type :=
| VInt (t : int_type) (n : Z)
| VFloat (t : float_type) (x : spec_float)
| VPtr (to_const : bool) (to : pointee) (addr : Z).

Definition type_of (v : value) : ctype :=
  match v with
  | VInt t _ => Integral t
  | VFloat t _ => Floating t
  | VPtr c p _ => Pointer c p
  end.

Definition prec_of (f : float_type) : Z :=
  match f with t_float => 24 | t_double => 53 end.

Definition emax_of (f : float_type) : Z :=
  match f with t_float => 128 | t_double => 1024 end.

(** The values an object of the given type can hold. *)
Definition well_formed (v : value) : bool :=
  match v with
  | VInt t n => in_range t n
  | VFloat t x => valid_binary (prec_of t) (emax_of t) x
  | VPtr _ _ a => (0 <=? a) && (a <? 2 ^ 64)
  end.

(** ** Conversions *)

(** Two's complement reduction to [w] bits. *)
Definition wrap (signed : bool) (w : Z) (n : Z) : Z :=
  if signed
  then (n + 2 ^ (w - 1)) mod 2 ^ w - 2 ^ (w - 1)
  else n mod 2 ^ w.

(** Integral conversion: to [bool], zero becomes [false] and anything else
    [true]; to any other type, the value of that type congruent to the
    source modulo [2 ^ bits], which is what C++20 prescribes and what GCC
    and Clang have always done for a signed destination. *)
Definition int_conv (t : int_type) (n : Z) : Z :=
  match t with
  | t_bool => if n =? 0 then 0 else 1
  | _ => wrap (is_signed t) (bits t) n
  end.

(** Integer to floating point: round to nearest, ties to even. *)
Definition float_of_Z (f : float_type) (n : Z) : spec_float :=
  binary_normalize (prec_of f) (emax_of f) n 0 false.

(** Floating point to floating point. *)
Definition float_conv (f : float_type) (x : spec_float) : spec_float :=
  match x with
  | S754_finite s m e => binary_round (prec_of f) (emax_of f) s m e
  | _ => x
  end.

(** The integer part of a finite floating-point datum. *)
Definition truncate (x : spec_float) : option Z :=
  match x with
  | S754_zero _ => Some 0
  | S754_finite s m e =>
      let mag := Z.shiftl (Zpos m) e in
      Some (if s then - mag else mag)
  | _ => None
  end.

(** Floating point to integer: the fractional part is discarded; the
    behaviour is undefined ([None]) when the result does not fit.  To
    [bool], zero becomes [false] and everything else [true]. *)
Definition Z_of_float (t : int_type) (x : spec_float) : option Z :=
  match t with
  | t_bool => Some (match x with S754_zero _ => 0 | _ => 1 end)
  | _ =>
      match truncate x with
      | Some n => if in_range t n then Some n else None
      | None => None
      end
  end.

(** [static_cast<Target>(v)]; [None] when the cast is ill-formed or its
    behaviour undefined.  Numbers convert to numbers; a pointer converts to
    [bool], null to [false]; pointers convert to and from pointers to
    [void], never dropping [const]. *)
Definition static_cast (Target : ctype) (v : value) : option value :=
  if is_same Target (type_of v) then Some v else
  match Target, v with
  | Integral t, VInt _ n => Some (VInt t (int_conv t n))
  | Integral t, VFloat _ x => option_map (VInt t) (Z_of_float t x)
  | Integral t_bool, VPtr _ _ a => Some (VInt t_bool (if a =? 0 then 0 else 1))
  | Floating f, VInt _ n => Some (VFloat f (float_of_Z f n))
  | Floating f, VFloat _ x => Some (VFloat f (float_conv f x))
  | Pointer c p, VPtr c' p' a =>
      if implb c' c && (pointee_eqb p p' || pointee_eqb p p_void
                        || pointee_eqb p' p_void)
      then Some (VPtr c p a) else None
  | _, _ => None
  end.

(** Implicit conversion of [v] to type [U], as performed when a function
    returns [v] with declared return type [U]: as [static_cast], except
    that a pointer to [void] does not become a pointer to an object. *)
Definition implicit_conversion (U : ctype) (v : value) : option value :=
  if is_same U (type_of v) then Some v else
  match U, v with
  | Pointer c p, VPtr c' p' a =>
      if implb c' c && (pointee_eqb p p' || pointee_eqb p p_void)
      then Some (VPtr c p a) else None
  | _, _ => static_cast U v
  end.

(** ** The built-in comparison *)

(** Integral promotion: every type of rank below [int] has all its values
    in [int] here, except [char32_t] which goes to [unsigned int]. *)
Definition promote (t : int_type) : int_type :=
  match t with
  | t_bool | t_char | t_schar | t_uchar | t_short | t_ushort
  | t_wchar | t_char16 => t_int
  | t_char32 => t_uint
  | _ => t
  end.

(** Conversion rank of the promoted types. *)
Definition rank (t : int_type) : Z :=
  match t with
  | t_long | t_ulong => 2
  | t_llong | t_ullong => 3
  | _ => 1
  end.

Definition to_unsigned (t : int_type) : int_type :=
  match t with
  | t_int => t_uint
  | t_long => t_ulong
  | t_llong => t_ullong
  | _ => t
  end.

(** The usual arithmetic conversions on two integral operands: the type in
    which a binary operator evaluates them. *)
Definition common_type (a b : int_type) : int_type :=
  let a' := promote a in
  let b' := promote b in
  if int_type_eqb a' b' then a'
  else if Bool.eqb (is_signed a') (is_signed b')
  then (if rank a' <? rank b' then b' else a')
  else
    let s := if is_signed a' then a' else b' in
    let u := if is_signed a' then b' else a' in
    if rank s <=? rank u then u
    else if max_of u <=? max_of s then s
    else to_unsigned s.

Definition wider_float (a b : float_type) : float_type :=
  match a, b with
  | t_float, t_float => t_float
  | _, _ => t_double
  end.

(** [a == b] for the built-in operator; [None] when the comparison is
    ill-formed (a pointer against a number, or unrelated pointers). *)
Definition builtin_eq (a b : value) : option bool :=
  match a, b with
  | VInt s x, VInt t y =>
      let c := common_type s t in
      Some (int_conv c x =? int_conv c y)
  | VInt _ x, VFloat f y => Some (SFeqb (float_of_Z f x) y)
  | VFloat f x, VInt _ y => Some (SFeqb x (float_of_Z f y))
  | VFloat f x, VFloat g y =>
      let c := wider_float f g in
      Some (SFeqb (float_conv c x) (float_conv c y))
  | VPtr _ p x, VPtr _ q y =>
      if pointee_eqb p q || pointee_eqb p p_void || pointee_eqb q p_void
      then Some (x =? y) else None
  | _, _ => None
  end.

(** [a != b] *)
Definition builtin_ne (a b : value) : option bool :=
  option_map negb (builtin_eq a b).

(** ** Outcomes *)

(** [std::runtime_error] *)
Record runtime_error : Type := { what : string }.

(** What evaluating an expression leads to: a value, an exception in
    flight, or nothing at all ([Stuck]) when the expression is ill-formed
    for the types at hand or its behaviour is undefined. *)
Inductive outcome (A : Type) : Type :=
| Returns (a : A)
| Throws (e : runtime_error)
| Stuck.

Arguments Returns {A} a.
Arguments Throws {A} e.
Arguments Stuck {A}.

Definition raises {A : Type} (o : outcome A) : bool :=
  match o with
  | Throws _ => true
  | _ => false
  end.

(** ** checked_cast.h *)

Section CheckedCast.

(** [__PRETTY_FUNCTION__] inside the instance of [checked_cast] for the
    given [Target] and [Source]: supplied by the compiler. *)
Variable PRETTY_FUNCTION : ctype -> ctype -> string.

Definition checked_cast_throw {A : Type} (pretty : string) : outcome A :=
  Throws {| what := String.append "checked_cast<>() overflowed: " pretty |}.

(** The branch of [checked_cast] that the two [if constexpr] tests select. *)
Inductive branch : Type := same_type | not_integral | round_trip.

Definition checked_cast_branch (Target Source : ctype) : branch :=
  if is_same Target Source then same_type
  else if negb (is_integral Source) then not_integral
  else round_trip.

Definition checked_cast (Target : ctype) (v : value) : outcome value :=
  let Source := type_of v in
  match checked_cast_branch Target Source with
  | same_type => Returns v
  | not_integral => Returns v
  | round_trip =>
      match static_cast Target v with
      | None => Stuck
      | Some r =>
          match static_cast Source r with
          | None => Stuck
          | Some back =>
              match builtin_ne back v with
              | None => Stuck
              | Some true => checked_cast_throw (PRETTY_FUNCTION Target Source)
              | Some false => Returns r
              end
          end
      end
  end.

(** The third branch as the description of the checked conversion words
    it: convert to [Target], convert the result back to the source type,
    fail if the value that comes back differs from [v], return the
    converted value otherwise. *)
Definition verified_conversion (Target : ctype) (v : value)
  : outcome value :=
  match static_cast Target v with
  | None => Stuck
  | Some r =>
      match static_cast (type_of v) r with
      | None => Stuck
      | Some back =>
          match builtin_eq back v with
          | Some true => Returns r
          | Some false =>
              Throws {| what := String.append "checked_cast<>() overflowed: "
                                  (PRETTY_FUNCTION Target (type_of v)) |}
          | None => Stuck
          end
      end
  end.

(** The same between two integral types, on the integers denoted. *)
Definition verified_integral_conversion (t s : int_type) (n : Z)
  : outcome value :=
  let r := int_conv t n in
  if int_conv s r =? n
  then Returns (VInt t r)
  else Throws {| what := String.append "checked_cast<>() overflowed: "
                           (PRETTY_FUNCTION (Integral t) (Integral s)) |}.

(** The container: [checked_cast_call_container<T>], where [T] is the type
    of the value it holds. *)
Record checked_cast_call_container : Type :=
  container { _result : value }.

(** [operator U() const]: the checked conversion of the stored value,
    returned as a [U]. *)
Definition operator_U (U : ctype) (c : checked_cast_call_container)
  : outcome value :=
  match checked_cast U (_result c) with
  | Returns r =>
      match implicit_conversion U r with
      | Some u => Returns u
      | None => Stuck
      end
  | Throws e => Throws e
  | Stuck => Stuck
  end.

(** [operator==(const U& other) const] *)
Definition operator_eq (c : checked_cast_call_container) (other : value)
  : outcome bool :=
  match builtin_eq (_result c) other with
  | Some b => Returns b
  | None => Stuck
  end.

(** [operator!=(const U& other) const] *)
Definition operator_ne (c : checked_cast_call_container) (other : value)
  : outcome bool :=
  match operator_eq c other with
  | Returns b => Returns (negb b)
  | Throws e => Throws e
  | Stuck => Stuck
  end.

(** *** Calls *)

(** What a callee may read and change. *)
Variable world : Type.

(** A function with a fixed signature.  Its body receives the parameters
    already bound and returns a value of the declared return type. *)
Record function : Type := {
  parameters : list ctype;
  body : list value -> world -> value * world
}.

(** The state a call expression runs in: the callee's world and, for the
    record, the argument lists with which callees were entered, latest
    first. *)
Record machine : Type := {
  state : world;
  entered : list (list value)
}.

Definition M (A : Type) : Type := machine -> outcome A * machine.

Definition ret {A : Type} (a : A) : M A := fun m => (Returns a, m).

Definition bind {A B : Type} (c : M A) (k : A -> M B) : M B :=
  fun m =>
    match c m with
    | (Returns a, m') => k a m'
    | (Throws e, m') => (Throws e, m')
    | (Stuck, m') => (Stuck, m')
    end.

Definition lift {A : Type} (o : outcome A) : M A := fun m => (o, m).

Notation "x <- c ;; k" := (bind c (fun x => k))
  (at level 61, c at next level, right associativity).

(** Initialisation of the parameters from the arguments, each through the
    conversion operator of its container.  The order in which a compiler
    initialises them is unspecified: an argument list with an ill-formed
    or undefined conversion has no outcome, and the exception reported is
    that of the leftmost failing conversion. *)
Fixpoint bind_parameters (ps : list ctype)
  (args : list checked_cast_call_container) : outcome (list value) :=
  match ps, args with
  | [], [] => Returns []
  | P :: ps', a :: args' =>
      match operator_U P a, bind_parameters ps' args' with
      | Stuck, _ | _, Stuck => Stuck
      | Throws e, _ => Throws e
      | Returns _, Throws e => Throws e
      | Returns x, Returns xs => Returns (x :: xs)
      end
  | _, _ => Stuck
  end.

(** Running the body of [fn] on bound parameters. *)
Definition enter (fn : function) (actuals : list value) : M value :=
  fun m =>
    let (r, w) := body fn actuals (state m) in
    (Returns r, {| state := w; entered := actuals :: entered m |}).

(** The call expression [fn(args...)] on containers. *)
Definition call (fn : function) (args : list checked_cast_call_container)
  : M value :=
  actuals <- lift (bind_parameters (parameters fn) args) ;;
  enter fn actuals.

(** [checked_cast_call<fn>(args...)] *)
Definition checked_cast_call (fn : function) (args : list value)
  : M checked_cast_call_container :=
  r <- call fn (map container args) ;;
  ret (container r).

(** [checked_cast_call(fn, args...)]: the overload that takes the callee as
    a value has the same body. *)
Definition checked_cast_call_value (fn : function) (args : list value)
  : M checked_cast_call_container :=
  r <- call fn (map container args) ;;
  ret (container r).

(** [const U b = checked_cast_call<fn>(args...);] *)
Definition checked_cast_call_as (U : ctype) (fn : function)
  (args : list value) : M value :=
  c <- checked_cast_call fn args ;;
  lift (operator_U U c).

End CheckedCast.

Arguments parameters {world} f.
Arguments body {world} f.
Arguments state {world} m.
Arguments entered {world} m.

(** ** main.cpp *)

Local Open Scope string_scope.

(** A rendering of [__PRETTY_FUNCTION__] in the manner of GCC. *)
Definition type_name (T : ctype) : string :=
  match T with
  | Integral t =>
      match t with
      | t_bool => "bool" | t_char => "char" | t_schar => "signed char"
      | t_uchar => "unsigned char" | t_wchar => "wchar_t"
      | t_char16 => "char16_t" | t_char32 => "char32_t"
      | t_short => "short int" | t_ushort => "short unsigned int"
      | t_int => "int" | t_uint => "unsigned int"
      | t_long => "long int" | t_ulong => "long unsigned int"
      | t_llong => "long long int" | t_ullong => "long long unsigned int"
      end
  | Floating t_float => "float"
  | Floating t_double => "double"
  | Pointer c p =>
      (if c then "const " else "") ++
      match p with
      | p_void => "void" | p_char => "char" | p_FILE => "FILE"
      | p_named n => n
      end ++ "*"
  end.

Definition gcc_PRETTY_FUNCTION (Target Source : ctype) : string :=
  "constexpr auto checked_cast(Source) [with Target = " ++ type_name Target
  ++ "; Source = " ++ type_name Source ++ "]".

(** [my_write]: takes a [const void*], a [char size] and a [FILE*], and
    returns [size] as a [char]. *)
Definition my_write : function unit := {|
  parameters := [Pointer true p_void; Integral t_char; Pointer false p_FILE];
  body := fun actuals w =>
    match actuals with
    | [_; size; _] => (size, w)
    | _ => (VInt t_char 0, w)
    end
|}.

(** [my_write_ok]: takes a [const void*], a [size_t size] and a [FILE*];
    its [return] converts [size] to [ssize_t]. *)
Definition my_write_ok : function unit := {|
  parameters := [Pointer true p_void; size_t; Pointer false p_FILE];
  body := fun actuals w =>
    match actuals with
    | [_; size; _] =>
        (match implicit_conversion ssize_t size with
         | Some r => r
         | None => VInt t_long 0
         end, w)
    | _ => (VInt t_long 0, w)
    end
|}.

(** [s.substr(0, s.find(':'))]: all of [s] when it has no colon. *)
Definition first_colon (s : string) : string :=
  match String.index 0 ":" s with
  | Some n => String.substring 0 n s
  | None => s
  end.

(** [assertEqual(a, b)] holds *)
Definition assertEqual (a b : option value) : bool :=
  match a, b with
  | Some x, Some y =>
      match builtin_eq x y with
      | Some true => true
      | _ => false
      end
  | _, _ => false
  end.

Definition initially : machine unit := {| state := tt; entered := [] |}.

(** The arguments [(str, sizeof(str), stdout)] for [const char str[n]]
    stored at [str]. *)
Definition arguments (str n stdout : Z) : list value :=
  [VPtr true p_char str; VInt t_ulong n; VPtr false p_FILE stdout].

(** [const char b = checked_cast_call<fn>(str, sizeof(str), stdout);] *)
Definition demo (fn : function unit) (str n stdout : Z)
  : outcome value * machine unit :=
  checked_cast_call_as gcc_PRETTY_FUNCTION unit (Integral t_char) fn
    (arguments str n stdout) initially.

(** A block of [main] headed "Should pass": the call returns and the
    assertion on its result holds. *)
Definition should_pass (fn : function unit) (str n stdout : Z) : bool :=
  match fst (demo fn str n stdout) with
  | Returns b => assertEqual (static_cast size_t b) (Some (VInt t_ulong n))
  | _ => false
  end.

(** A block of [main] that expects the failure: the statement after the
    call is not reached and the handler's assertion holds. *)
Definition should_fail (fn : function unit) (str n stdout : Z) : bool :=
  match fst (demo fn str n stdout) with
  | Throws e => String.eqb (first_colon (what e)) "checked_cast<>() overflowed"
  | _ => false
  end.

(** [main] reaches [return 0] with every assertion holding; the arrays and
    [stdout] live at the given addresses. *)
Definition main (str stdout : Z) : bool :=
  should_pass my_write str 100 stdout
  && should_pass my_write_ok str 100 stdout
  && should_fail my_write str 142 stdout
  && should_fail my_write_ok str 142 stdout
  && should_fail my_write str 256 stdout
  && should_fail my_write_ok str 256 stdout.

Local Close Scope string_scope.

(** * Properties *)

(** ** Types and ranges *)

Lemma int_type_eqb_eq (a b : int_type) : int_type_eqb a b = true <-> a = b.
Proof. split; [destruct a, b; simpl; congruence | intros ->; destruct b; reflexivity]. Qed.

Lemma int_type_eqb_refl (a : int_type) : int_type_eqb a a = true.
Proof. now apply int_type_eqb_eq. Qed.

Lemma pointee_eqb_refl (p : pointee) : pointee_eqb p p = true.
Proof. destruct p; simpl; auto using String.eqb_refl. Qed.

Lemma is_same_refl (T : ctype) : is_same T T = true.
Proof.
  destruct T as [i | f | c p]; simpl.
  - apply int_type_eqb_refl.
  - now destruct f.
  - now rewrite Bool.eqb_reflx, pointee_eqb_refl.
Qed.

Lemma is_same_eq (A B : ctype) : is_same A B = true <-> A = B.
Proof.
  split; [| intros ->; apply is_same_refl].
  destruct A as [a | a | ca a], B as [b | b | cb b]; simpl; try discriminate.
  - now intros ->%int_type_eqb_eq.
  - now destruct a, b.
  - intros [Hc Hp]%andb_true_iff. apply Bool.eqb_prop in Hc. subst cb.
    destruct a, b; simpl in Hp; try discriminate; trivial.
    now apply String.eqb_eq in Hp; subst.
Qed.

Lemma in_range_iff (t : int_type) (n : Z) :
  in_range t n = true <-> min_of t <= n <= max_of t.
Proof. unfold in_range. rewrite andb_true_iff, !Z.leb_le. tauto. Qed.

Lemma in_range_false_iff (t : int_type) (n : Z) :
  in_range t n = false <-> n < min_of t \/ max_of t < n.
Proof. unfold in_range. rewrite andb_false_iff, !Z.leb_gt. tauto. Qed.

(** Turns range facts about a known type into linear facts and lets [lia]
    see through the reductions modulo a power of two. *)
Ltac ranges :=
  repeat match goal with
    | H : in_range _ _ = true |- _ => apply in_range_iff in H
    | H : in_range _ _ = false |- _ => apply in_range_false_iff in H
    | |- in_range _ _ = true => apply in_range_iff
    | |- in_range _ _ = false => apply in_range_false_iff
    end;
  cbv [min_of max_of is_signed bits int_conv wrap] in *;
  change (2 ^ 1) with 2 in *; change (2 ^ 0) with 1 in *;
  change (2 ^ 7) with 128 in *; change (2 ^ 8) with 256 in *;
  change (2 ^ 15) with 32768 in *; change (2 ^ 16) with 65536 in *;
  change (2 ^ 31) with 2147483648 in *;
  change (2 ^ 32) with 4294967296 in *;
  change (2 ^ 63) with 9223372036854775808 in *;
  change (2 ^ 64) with 18446744073709551616 in *.

Ltac arith := Z.div_mod_to_equations; lia.

(** A value of a type converts to itself. *)
Lemma int_conv_id (t : int_type) (n : Z) :
  in_range t n = true -> int_conv t n = n.
Proof.
  intros H. destruct t; ranges; simpl in *;
    try (destruct (Z.eqb_spec n 0)); arith.
Qed.

(** A conversion lands in the range of its type. *)
Lemma int_conv_in_range (t : int_type) (n : Z) :
  in_range t (int_conv t n) = true.
Proof.
  destruct t; ranges; simpl;
    try (destruct (Z.eqb_spec n 0)); arith.
Qed.

Ltac eqbs :=
  repeat match goal with
    | |- context [?a =? ?b] => destruct (Z.eqb_spec a b)
    | H : context [?a =? ?b] |- _ => destruct (Z.eqb_spec a b)
    end.

Lemma int_type_eqb_sym (a b : int_type) : int_type_eqb a b = int_type_eqb b a.
Proof. now destruct a, b. Qed.

Lemma common_type_same (s : int_type) : common_type s s = promote s.
Proof. unfold common_type. now rewrite int_type_eqb_refl. Qed.

(** Promotion loses no value. *)
Lemma promote_in_range (s : int_type) (n : Z) :
  in_range s n = true -> in_range (promote s) n = true.
Proof. intros H. destruct s; cbn [promote]; ranges; lia. Qed.

(** Two values of one integral type compare as the integers they denote. *)
Lemma builtin_eq_same (s : int_type) (a b : Z) :
  in_range s a = true -> in_range s b = true ->
  builtin_eq (VInt s a) (VInt s b) = Some (a =? b).
Proof.
  intros Ha Hb. simpl. rewrite common_type_same.
  now rewrite !int_conv_id by now apply promote_in_range.
Qed.

(** When converting to [t] and back to [s] gives the integer one started
    from: when it fits [t], when [t] is at least as wide as [s], and for the
    top values of an unsigned [s] taken to a narrower signed [t], which pass
    through the negative values of [t]. *)
Lemma comes_back_iff (t s : int_type) (n : Z) :
  in_range s n = true ->
  int_conv s (int_conv t n) = n <->
  in_range t n = true \/ bits s <= bits t \/
  (is_signed s = false /\ is_signed t = true /\
   2 ^ bits s - 2 ^ (bits t - 1) <= n).
Proof.
  intros Hn. rewrite in_range_iff.
  destruct s, t; ranges; eqbs;
    (split;
     [ intros ?; eqbs; arith
     | intros [? | [? | [? [? ?]]]]; try discriminate; arith ]).
Qed.

(** Conversion to an unsigned type at least as wide as the signed source
    adds the modulus to a negative value. *)
Lemma int_conv_negative (t s : int_type) (n : Z) :
  is_signed s = true -> is_signed t = false -> bits s <= bits t ->
  in_range s n = true -> n < 0 ->
  int_conv t n = n + 2 ^ bits t.
Proof.
  intros Hs Ht Hb Hn Hneg.
  destruct s; try discriminate Hs; destruct t; try discriminate Ht;
    ranges; try lia; arith.
Qed.

(** Conversion to a type other than [bool] changes an integer by a
    multiple of two to the width of the type. *)
Lemma int_conv_congruent (t : int_type) (n : Z) :
  t <> t_bool ->
  int_conv t n mod 2 ^ bits t = n mod 2 ^ bits t.
Proof.
  intros Hbool. destruct t; try (now destruct Hbool); ranges; arith.
Qed.

Section Properties.

Variable PRETTY_FUNCTION : ctype -> ctype -> string.

(** ** The three branches *)

Lemma checked_cast_same (v : value) :
  checked_cast PRETTY_FUNCTION (type_of v) v = Returns v.
Proof.
  unfold checked_cast, checked_cast_branch.
  now rewrite is_same_refl.
Qed.

Lemma checked_cast_not_integral (Target : ctype) (v : value) :
  is_integral (type_of v) = false -> checked_cast PRETTY_FUNCTION Target v = Returns v.
Proof.
  intros H. unfold checked_cast, checked_cast_branch.
  rewrite H. now destruct (is_same Target (type_of v)).
Qed.

Lemma checked_cast_round_trip (Target : ctype) (v : value) :
  is_same Target (type_of v) = false -> is_integral (type_of v) = true ->
  checked_cast PRETTY_FUNCTION Target v = verified_conversion PRETTY_FUNCTION Target v.
Proof.
  intros Hd Hi.
  unfold checked_cast, checked_cast_branch, verified_conversion.
  rewrite Hd, Hi. simpl.
  destruct (static_cast Target v) as [r |]; trivial.
  destruct (static_cast (type_of v) r) as [back |]; trivial.
  unfold builtin_ne.
  now destruct (builtin_eq back v) as [[|] |].
Qed.

(** Between two distinct integral types the cast is the integral
    conversion. *)
Lemma static_cast_integral (t s : int_type) (n : Z) :
  int_type_eqb t s = false ->
  static_cast (Integral t) (VInt s n) = Some (VInt t (int_conv t n)).
Proof.
  intros Hts. unfold static_cast. cbn [is_same type_of]. rewrite Hts.
  now destruct t.
Qed.

(** Between two distinct integral types the conversion is decided on the
    integers. *)
Lemma checked_cast_integral (t s : int_type) (n : Z) :
  int_type_eqb t s = false -> in_range s n = true ->
  checked_cast PRETTY_FUNCTION (Integral t) (VInt s n)
  = verified_integral_conversion PRETTY_FUNCTION t s n.
Proof.
  intros Hts Hn.
  assert (Hst : int_type_eqb s t = false) by now rewrite int_type_eqb_sym.
  unfold checked_cast, checked_cast_branch, verified_integral_conversion.
  cbn [is_same type_of is_integral negb]. rewrite Hts.
  rewrite (static_cast_integral t s n Hts).
  rewrite (static_cast_integral s t _ Hst).
  unfold builtin_ne.
  rewrite builtin_eq_same by auto using int_conv_in_range.
  cbn [option_map]. now destruct (int_conv s (int_conv t n) =? n).
Qed.

(** Whether a conversion between integral types raises. *)
Lemma raises_integral (t s : int_type) (n : Z) :
  in_range s n = true ->
  raises (checked_cast PRETTY_FUNCTION (Integral t) (VInt s n)) = true <->
  int_conv s (int_conv t n) <> n.
Proof.
  intros Hn. destruct (int_type_eqb t s) eqn:E.
  - apply int_type_eqb_eq in E. subst t.
    pose proof (checked_cast_same (VInt s n)) as H. simpl in H. rewrite H.
    simpl.
    rewrite !(int_conv_id s n Hn). split; [discriminate | congruence].
  - rewrite checked_cast_integral by trivial.
    unfold verified_integral_conversion.
    destruct (Z.eqb_spec (int_conv s (int_conv t n)) n); simpl;
      split; congruence.
Qed.

(** A thrown error says which instance threw it. *)
Lemma checked_cast_throws_inv (Target : ctype) (v : value)
  (e : runtime_error) :
  checked_cast PRETTY_FUNCTION Target v = Throws e ->
  what e = String.append "checked_cast<>() overflowed: "
             (PRETTY_FUNCTION Target (type_of v)).
Proof.
  unfold checked_cast.
  destruct (checked_cast_branch Target (type_of v)); try discriminate.
  destruct (static_cast Target v) as [r |]; try discriminate.
  destruct (static_cast (type_of v) r) as [back |]; try discriminate.
  destruct (builtin_ne back v) as [[|] |]; try discriminate.
  unfold checked_cast_throw. now intros [= <-].
Qed.

Lemma first_colon_overflowed (pretty : string) :
  first_colon (String.append "checked_cast<>() overflowed: " pretty)
  = "checked_cast<>() overflowed"%string.
Proof. reflexivity. Qed.

(** ** Conversions between integral types *)

(** What a conversion returned converts back to the value it came from. *)
Lemma back_conversion_returns (s t : int_type) (n : Z) (r : value) :
  in_range s n = true ->
  checked_cast PRETTY_FUNCTION (Integral t) (VInt s n) = Returns r ->
  checked_cast PRETTY_FUNCTION (Integral s) r = Returns (VInt s n).
Proof.
  intros Hn. destruct (int_type_eqb t s) eqn:Hts.
  - apply int_type_eqb_eq in Hts. subst t.
    pose proof (checked_cast_same (VInt s n)) as Hsame. simpl in Hsame.
    rewrite Hsame. now intros [= <-].
  - rewrite checked_cast_integral by trivial.
    unfold verified_integral_conversion.
    destruct (Z.eqb_spec (int_conv s (int_conv t n)) n) as [Hback | Hback];
      try discriminate.
    intros [= <-].
    rewrite checked_cast_integral
      by (rewrite 1?int_type_eqb_sym; auto using int_conv_in_range).
    unfold verified_integral_conversion.
    now rewrite Hback, Z.eqb_refl.
Qed.

(** C1, round-trip law.  For a value [n] of an integral type [s] and an
    integral type [t]: converting to [t] and the result back to [s] gives
    [n] again, or the first conversion raises, or the second does.  No other
    value comes out. *)
Theorem round_trip_law (s t : int_type) (n : Z) :
  in_range s n = true ->
  (exists r, checked_cast PRETTY_FUNCTION (Integral t) (VInt s n) = Returns r /\
             checked_cast PRETTY_FUNCTION (Integral s) r = Returns (VInt s n))
  \/ raises (checked_cast PRETTY_FUNCTION (Integral t) (VInt s n)) = true
  \/ (exists r, checked_cast PRETTY_FUNCTION (Integral t) (VInt s n) = Returns r /\
                raises (checked_cast PRETTY_FUNCTION (Integral s) r) = true).
Proof.
  intros Hn. destruct (int_type_eqb t s) eqn:Hts.
  - apply int_type_eqb_eq in Hts. subst t. left. exists (VInt s n).
    split; exact (checked_cast_same (VInt s n)).
  - rewrite checked_cast_integral by trivial.
    unfold verified_integral_conversion.
    destruct (Z.eqb_spec (int_conv s (int_conv t n)) n) as [Hback | Hback].
    + left. eexists. split; [reflexivity |].
      rewrite checked_cast_integral
        by (rewrite 1?int_type_eqb_sym; auto using int_conv_in_range).
      unfold verified_integral_conversion.
      rewrite Hback, Z.eqb_refl. reflexivity.
    + right. left. reflexivity.
Qed.

(** C10, widening safety.  When every value of [s] is a value of [t], the
    conversion of a value of [s] to [t] returns the same integer as a [t],
    and casting that back to [s] gives the value started from. *)
Theorem widening_safety (s t : int_type) (n : Z) :
  (forall m, in_range s m = true -> in_range t m = true) ->
  in_range s n = true ->
  checked_cast PRETTY_FUNCTION (Integral t) (VInt s n) = Returns (VInt t n) /\
  static_cast (Integral s) (VInt t n) = Some (VInt s n).
Proof.
  intros Hsub Hn. pose proof (Hsub n Hn) as Htn.
  destruct (int_type_eqb t s) eqn:Hts.
  - apply int_type_eqb_eq in Hts. subst t. split.
    + exact (checked_cast_same (VInt s n)).
    + unfold static_cast. cbn [is_same type_of].
      now rewrite int_type_eqb_refl.
  - split.
    + rewrite checked_cast_integral by trivial.
      unfold verified_integral_conversion.
      rewrite (int_conv_id t n Htn), (int_conv_id s n Hn), Z.eqb_refl.
      reflexivity.
    + rewrite static_cast_integral by now rewrite int_type_eqb_sym.
      now rewrite (int_conv_id s n Hn).
Qed.

(** C2 as amended, sign loss.  A negative value of a signed type [s] taken
    to an unsigned type [t] raises when [t] has fewer bits than [s]; when
    [t] has at least as many, the conversion returns the value increased by
    [2 ^ bits t]. *)
Theorem sign_loss_detection (s t : int_type) (n : Z) :
  is_signed s = true -> is_signed t = false ->
  in_range s n = true -> n < 0 ->
  (bits t < bits s ->
   raises (checked_cast PRETTY_FUNCTION (Integral t) (VInt s n)) = true) /\
  (bits s <= bits t ->
   checked_cast PRETTY_FUNCTION (Integral t) (VInt s n)
   = Returns (VInt t (n + 2 ^ bits t))).
Proof.
  intros Hs Ht Hn Hneg. split; intros Hb.
  - apply raises_integral; trivial. rewrite comes_back_iff by trivial.
    intros [Hin | [Hle | (Hs' & _)]]; try lia; try congruence.
    apply in_range_iff in Hin. unfold min_of in Hin. rewrite Ht in Hin. lia.
  - assert (Hts : int_type_eqb t s = false).
    { destruct (int_type_eqb t s) eqn:E; trivial.
      apply int_type_eqb_eq in E. congruence. }
    rewrite checked_cast_integral by trivial.
    unfold verified_integral_conversion.
    assert (Hback : int_conv s (int_conv t n) = n)
      by (apply comes_back_iff; auto).
    rewrite Hback, Z.eqb_refl.
    now rewrite (int_conv_negative t s n).
Qed.

(** C3 as amended, magnitude overflow.  The conversion of a value of [s] to
    [t] raises exactly when the value lies outside the range of [t], [t] has
    fewer bits than [s] and, for an unsigned [s] and a signed [t], the value
    is below [2 ^ bits s - 2 ^ (bits t - 1)].  A value outside the range of
    [t] is otherwise returned, without an error, as the value of [t]
    congruent to it modulo [2 ^ bits t]. *)
Theorem magnitude_overflow_detection (s t : int_type) (n : Z) :
  in_range s n = true ->
  (raises (checked_cast PRETTY_FUNCTION (Integral t) (VInt s n)) = true <->
   in_range t n = false /\ bits t < bits s /\
   (is_signed s = false -> is_signed t = true ->
    n < 2 ^ bits s - 2 ^ (bits t - 1))) /\
  (in_range t n = false ->
   bits s <= bits t \/
   (is_signed s = false /\ is_signed t = true /\
    2 ^ bits s - 2 ^ (bits t - 1) <= n) ->
   exists m,
     checked_cast PRETTY_FUNCTION (Integral t) (VInt s n)
     = Returns (VInt t m) /\
     in_range t m = true /\
     m mod 2 ^ bits t = n mod 2 ^ bits t).
Proof.
  intros Hn. split.
  - rewrite raises_integral, comes_back_iff by trivial.
    destruct (in_range t n); destruct (is_signed s); destruct (is_signed t);
      intuition (try discriminate; try lia).
  - intros Hout Hcase.
    assert (Hts : int_type_eqb t s = false).
    { destruct (int_type_eqb t s) eqn:E; trivial.
      apply int_type_eqb_eq in E. congruence. }
    assert (Hbool : t <> t_bool).
    { intros ->. destruct Hcase as [Hle | (_ & Hsg & _)]; [| discriminate].
      destruct s; try (exfalso; apply Hle; reflexivity).
      congruence. }
    assert (Hback : int_conv s (int_conv t n) = n)
      by (apply comes_back_iff; tauto).
    exists (int_conv t n).
    rewrite checked_cast_integral by trivial.
    unfold verified_integral_conversion. rewrite Hback, Z.eqb_refl.
    auto using int_conv_in_range, int_conv_congruent.
Qed.

(** ** Selection of the branch *)

(** C4 as amended, path selection.  The round-trip-verified conversion is
    performed exactly when the type requested differs from the type of the
    value and the latter is integral, whatever the type requested is; in
    every other case the value is returned as it is. *)
Theorem path_selection (Target : ctype) (v : value) :
  (checked_cast_branch Target (type_of v) = round_trip <->
   Target <> type_of v /\ is_integral (type_of v) = true) /\
  (Target <> type_of v /\ is_integral (type_of v) = true ->
   checked_cast PRETTY_FUNCTION Target v
   = verified_conversion PRETTY_FUNCTION Target v) /\
  (~ (Target <> type_of v /\ is_integral (type_of v) = true) ->
   checked_cast PRETTY_FUNCTION Target v = Returns v).
Proof.
  assert (Hsame : is_same Target (type_of v) = false <-> Target <> type_of v).
  { rewrite <- is_same_eq. now destruct (is_same Target (type_of v)). }
  split; [split | split].
  - unfold checked_cast_branch. intros H. split.
    + apply Hsame. now destruct (is_same Target (type_of v)).
    + destruct (is_same Target (type_of v)); try discriminate.
      now destruct (is_integral (type_of v)).
  - intros [Hd Hi]. apply Hsame in Hd. unfold checked_cast_branch.
    now rewrite Hd, Hi.
  - intros [Hd Hi]. apply checked_cast_round_trip; trivial. now apply Hsame.
  - intros Hnot. destruct (is_integral (type_of v)) eqn:Hi.
    + destruct (is_same Target (type_of v)) eqn:Hd.
      * apply is_same_eq in Hd. rewrite Hd. apply checked_cast_same.
      * exfalso. apply Hnot. split; trivial. now apply Hsame.
    + now apply checked_cast_not_integral.
Qed.

(** C5, identity law.  Asked for the type the value already has, the
    conversion returns the value and does not raise. *)
Theorem identity_law (v : value) :
  checked_cast PRETTY_FUNCTION (type_of v) v = Returns v.
Proof. apply checked_cast_same. Qed.

(** C6, pass-through law.  A value whose type is not integral is returned
    as it is, whatever type is asked for, and nothing is raised. *)
Theorem pass_through_law (Target : ctype) (v : value) :
  is_integral (type_of v) = false ->
  checked_cast PRETTY_FUNCTION Target v = Returns v /\
  raises (checked_cast PRETTY_FUNCTION Target v) = false.
Proof.
  intros H. now rewrite checked_cast_not_integral.
Qed.

(** ** The container *)

(** C9, comparison without conversion.  When the stored value [r] and [u]
    can be compared, [operator==] returns what [r == u] is and [operator!=]
    its negation; neither ever raises, comparable or not. *)
Theorem comparison_without_conversion (r u : value) :
  (forall b, builtin_eq r u = Some b ->
     operator_eq (container r) u = Returns b /\
     operator_ne (container r) u = Returns (negb b)) /\
  raises (operator_eq (container r) u) = false /\
  raises (operator_ne (container r) u) = false.
Proof.
  unfold operator_ne, operator_eq. simpl.
  destruct (builtin_eq r u) as [b' |]; split; auto.
  - intros b [= ->]. auto.
  - discriminate.
Qed.

(** The conversion operator forwards the failure of the checked
    conversion. *)
Lemma operator_U_throws_inv (U : ctype) (c : checked_cast_call_container)
  (e : runtime_error) :
  operator_U PRETTY_FUNCTION U c = Throws e ->
  checked_cast PRETTY_FUNCTION U (_result c) = Throws e.
Proof.
  unfold operator_U.
  destruct (checked_cast PRETTY_FUNCTION U (_result c)) as [r | e' |];
    try discriminate; trivial.
  destruct (implicit_conversion U r); discriminate.
Qed.

(** ** Calls *)

Variable world : Type.

(** A call expression runs the body once, on the parameters bound, when
    they could all be bound, and leaves the machine alone otherwise. *)
Lemma call_unfold (fn : function world)
  (args : list checked_cast_call_container) (m : machine world) :
  call PRETTY_FUNCTION world fn args m =
  match bind_parameters PRETTY_FUNCTION (parameters fn) args with
  | Returns actuals =>
      (Returns (fst (body fn actuals (state m))),
       {| state := snd (body fn actuals (state m));
          entered := actuals :: entered m |})
  | Throws e => (Throws e, m)
  | Stuck => (Stuck, m)
  end.
Proof.
  unfold call, bind, lift, enter.
  destruct (bind_parameters PRETTY_FUNCTION (parameters fn) args); trivial.
  now destruct (body fn a (state m)).
Qed.

Lemma checked_cast_call_unfold (fn : function world) (args : list value)
  (m : machine world) :
  checked_cast_call PRETTY_FUNCTION world fn args m =
  match bind_parameters PRETTY_FUNCTION (parameters fn) (map container args)
  with
  | Returns actuals =>
      (Returns (container (fst (body fn actuals (state m)))),
       {| state := snd (body fn actuals (state m));
          entered := actuals :: entered m |})
  | Throws e => (Throws e, m)
  | Stuck => (Stuck, m)
  end.
Proof.
  unfold checked_cast_call, bind, ret. rewrite call_unfold.
  now destruct (bind_parameters PRETTY_FUNCTION (parameters fn)
                  (map container args)).
Qed.

(** The parameters are bound when each conversion returns. *)
Lemma bind_parameters_returns (ps : list ctype) (args actuals : list value) :
  List.length ps = List.length args ->
  Forall2 (fun Ta x => operator_U PRETTY_FUNCTION (fst Ta) (container (snd Ta))
                       = Returns x)
          (combine ps args) actuals ->
  bind_parameters PRETTY_FUNCTION ps (map container args) = Returns actuals.
Proof.
  revert args actuals.
  induction ps as [| T ps IH]; intros [| a args] actuals Hlen Hall;
    try discriminate Hlen; simpl in *.
  - now inversion Hall.
  - inversion Hall as [| Ta x l xs Hx Hxs]; subst. simpl in Hx.
    rewrite Hx, (IH args xs); auto.
Qed.

(** An exception out of the binding of the parameters is that of one of the
    conversions. *)
Lemma bind_parameters_throws_inv (ps : list ctype)
  (args : list checked_cast_call_container) (e : runtime_error) :
  bind_parameters PRETTY_FUNCTION ps args = Throws e ->
  exists T a, In (T, a) (combine ps args) /\
              operator_U PRETTY_FUNCTION T a = Throws e.
Proof.
  revert args.
  induction ps as [| T ps IH]; intros [| a args]; simpl; try discriminate.
  destruct (operator_U PRETTY_FUNCTION T a) as [x | e1 |] eqn:Hx;
    destruct (bind_parameters PRETTY_FUNCTION ps args) as [xs | e2 |] eqn:Hxs;
    try discriminate.
  - intros [= <-]. destruct (IH args Hxs) as (T' & a' & Hin & H').
    exists T', a'. auto.
  - intros [= <-]. exists T, a. auto.
  - intros [= <-]. exists T, a. auto.
Qed.

(** A conversion that raises keeps the parameters from being bound. *)
Lemma bind_parameters_failure (ps : list ctype)
  (args : list checked_cast_call_container) (T : ctype)
  (a : checked_cast_call_container) :
  In (T, a) (combine ps args) ->
  raises (operator_U PRETTY_FUNCTION T a) = true ->
  forall actuals, bind_parameters PRETTY_FUNCTION ps args <> Returns actuals.
Proof.
  revert args.
  induction ps as [| T' ps IH]; intros [| a' args]; simpl; try tauto.
  intros [[= -> ->] | Hin] Hr actuals.
  - destruct (operator_U PRETTY_FUNCTION T a); try discriminate Hr.
    now destruct (bind_parameters PRETTY_FUNCTION ps args).
  - specialize (IH args Hin Hr).
    destruct (operator_U PRETTY_FUNCTION T' a');
      destruct (bind_parameters PRETTY_FUNCTION ps args) as [xs | |];
      try discriminate.
    now destruct (IH xs).
Qed.

(** Where every conversion has an outcome, so has the binding. *)
Lemma bind_parameters_defined (ps : list ctype)
  (args : list checked_cast_call_container) :
  List.length ps = List.length args ->
  (forall T a, In (T, a) (combine ps args) ->
               operator_U PRETTY_FUNCTION T a <> Stuck) ->
  bind_parameters PRETTY_FUNCTION ps args <> Stuck.
Proof.
  revert args.
  induction ps as [| T ps IH]; intros [| a args] Hlen Hdef;
    try discriminate Hlen; simpl in *; try discriminate.
  assert (Ha : operator_U PRETTY_FUNCTION T a <> Stuck) by auto.
  assert (Hrest : bind_parameters PRETTY_FUNCTION ps args <> Stuck)
    by (apply IH; auto).
  destruct (operator_U PRETTY_FUNCTION T a);
    destruct (bind_parameters PRETTY_FUNCTION ps args);
    congruence.
Qed.

Lemma in_combine_map_container (ps : list ctype) (args : list value)
  (T : ctype) (a : value) :
  In (T, a) (combine ps args) ->
  In (T, container a) (combine ps (map container args)).
Proof.
  revert args. induction ps as [| T' ps IH]; intros [| a' args]; simpl; auto.
  intros [[= -> ->] | Hin]; auto.
Qed.

Lemma in_combine_map_container_inv (ps : list ctype) (args : list value)
  (T : ctype) (c : checked_cast_call_container) :
  In (T, c) (combine ps (map container args)) ->
  In (T, _result c) (combine ps args).
Proof.
  revert args. induction ps as [| T' ps IH]; intros [| a' args]; simpl; auto.
  intros [[= -> <-] | Hin]; auto.
Qed.

Local Open Scope string_scope.

(** C7, failure signal.  The error a checked conversion throws carries the
    message ["checked_cast<>() overflowed"], then [": "], then the
    descriptor of the instance that threw, so that what precedes its first
    colon is ["checked_cast<>() overflowed"]; and an error that comes out of
    a wrapped call, from the input side or from the output side, is such an
    error. *)
Theorem failure_signal :
  (forall Target v e,
     checked_cast PRETTY_FUNCTION Target v = Throws e ->
     what e = "checked_cast<>() overflowed" ++ ": "
              ++ PRETTY_FUNCTION Target (type_of v) /\
     first_colon (what e) = "checked_cast<>() overflowed") /\
  (forall U (fn : function world) args m e m',
     checked_cast_call_as PRETTY_FUNCTION world U fn args m = (Throws e, m') ->
     exists Target Source,
       what e = "checked_cast<>() overflowed" ++ ": "
                ++ PRETTY_FUNCTION Target Source /\
       first_colon (what e) = "checked_cast<>() overflowed").
Proof.
  assert (Hcast : forall Target v e,
             checked_cast PRETTY_FUNCTION Target v = Throws e ->
             what e = "checked_cast<>() overflowed" ++ ": "
                      ++ PRETTY_FUNCTION Target (type_of v) /\
             first_colon (what e) = "checked_cast<>() overflowed").
  { intros Target v e H. apply checked_cast_throws_inv in H.
    rewrite H. split; [reflexivity | apply first_colon_overflowed]. }
  split; [exact Hcast |].
  intros U fn args m e m'.
  unfold checked_cast_call_as, bind, lift. rewrite checked_cast_call_unfold.
  destruct (bind_parameters PRETTY_FUNCTION (parameters fn)
              (map container args)) as [actuals | e' |] eqn:Hbind.
  - intros [= Hout _]. apply operator_U_throws_inv in Hout.
    eexists _, _. exact (Hcast _ _ _ Hout).
  - intros [= -> _].
    apply bind_parameters_throws_inv in Hbind as (T & a & _ & Hthrow).
    apply operator_U_throws_inv in Hthrow.
    eexists _, _. exact (Hcast _ _ _ Hthrow).
  - discriminate.
Qed.

Local Close Scope string_scope.

(** C8, invocation discipline.  A wrapped call enters the callee at most
    once.  It enters it exactly once, on the converted arguments, when the
    conversion of every argument returns.  It does not enter it when the
    conversion of some argument raises, and then, every conversion having
    an outcome, the call raises.  In particular the call of [my_write] with
    a size of 142 raises and [my_write] is not entered. *)
Theorem invocation_discipline (fn : function world) (args : list value)
  (m : machine world) :
  let run := checked_cast_call PRETTY_FUNCTION world fn args m in
  (entered (snd run) = entered m \/
   exists actuals, entered (snd run) = actuals :: entered m) /\
  (forall actuals,
     List.length (parameters fn) = List.length args ->
     Forall2 (fun Ta x => operator_U PRETTY_FUNCTION (fst Ta)
                            (container (snd Ta)) = Returns x)
             (combine (parameters fn) args) actuals ->
     fst run = Returns (container (fst (body fn actuals (state m)))) /\
     state (snd run) = snd (body fn actuals (state m)) /\
     entered (snd run) = actuals :: entered m) /\
  (forall T a,
     In (T, a) (combine (parameters fn) args) ->
     raises (operator_U PRETTY_FUNCTION T (container a)) = true ->
     snd run = m /\
     (List.length (parameters fn) = List.length args ->
      (forall T' a', In (T', a') (combine (parameters fn) args) ->
                     operator_U PRETTY_FUNCTION T' (container a') <> Stuck) ->
      raises (fst run) = true)) /\
  (forall str stdout,
     let run142 := checked_cast_call PRETTY_FUNCTION unit my_write
                     (arguments str 142 stdout) initially in
     raises (fst run142) = true /\ entered (snd run142) = []).
Proof.
  intros run. subst run. rewrite checked_cast_call_unfold.
  split; [| split; [| split]].
  - destruct (bind_parameters PRETTY_FUNCTION (parameters fn)
                (map container args)); simpl; eauto.
  - intros actuals Hlen Hall.
    rewrite (bind_parameters_returns _ _ actuals Hlen Hall). simpl. auto.
  - intros T a Hin Hr. apply in_combine_map_container in Hin.
    pose proof (bind_parameters_failure _ _ _ _ Hin Hr) as Hfail.
    destruct (bind_parameters PRETTY_FUNCTION (parameters fn)
                (map container args)) as [actuals | e |] eqn:Hbind; simpl.
    + now destruct (Hfail actuals).
    + auto.
    + split; trivial. intros Hlen Hdef. exfalso.
      apply (bind_parameters_defined (parameters fn) (map container args));
        trivial.
      * now rewrite length_map.
      * intros T' c Hc. apply in_combine_map_container_inv in Hc.
        specialize (Hdef _ _ Hc). now destruct c.
  - intros str stdout. split; reflexivity.
Qed.

End Properties.

(** ** Where the description and the code part *)

(** C2 does not hold as described: [-1] of type [int] is taken to
    [unsigned int] without an error, as 4294967295. *)
Lemma sign_loss_undetected :
  ~ (forall (s t : int_type) (n : Z),
       is_signed s = true -> is_signed t = false ->
       in_range s n = true -> n < 0 ->
       raises (checked_cast gcc_PRETTY_FUNCTION (Integral t) (VInt s n))
       = true).
Proof.
  intros H.
  specialize (H t_int t_uint (-1) eq_refl eq_refl eq_refl eq_refl).
  vm_compute in H. discriminate H.
Qed.

(** C3 does not hold as described: 4294967295 of type [unsigned int] is
    above every [int], and is taken to [int] without an error, as [-1]. *)
Lemma magnitude_overflow_undetected :
  ~ (forall (s t : int_type) (n : Z),
       in_range s n = true -> in_range t n = false ->
       raises (checked_cast gcc_PRETTY_FUNCTION (Integral t) (VInt s n))
       = true).
Proof.
  intros H.
  specialize (H t_uint t_int 4294967295 eq_refl eq_refl).
  vm_compute in H. discriminate H.
Qed.

(** C4 does not hold as described: [float] is not integral, and yet
    16777217 of type [int], asked for as a [float], is not returned as it
    is: the conversion is checked, and fails. *)
Lemma unchecked_outside_integral_pairs_fails :
  ~ (forall (Target : ctype) (v : value),
       well_formed v = true ->
       (Target <> type_of v /\ is_integral (type_of v) = true /\
        is_integral Target = true) \/
       checked_cast gcc_PRETTY_FUNCTION Target v = Returns v).
Proof.
  intros H.
  destruct (H (Floating t_float) (VInt t_int 16777217) eq_refl)
    as [(_ & _ & Hint) | Hret].
  - discriminate Hint.
  - vm_compute in Hret. discriminate Hret.
Qed.

(** ** The laws at work *)

Lemma round_trip_law_witness :
  in_range t_ulong 100 = true /\
  ((exists r,
      checked_cast gcc_PRETTY_FUNCTION (Integral t_char) (VInt t_ulong 100)
      = Returns r /\
      checked_cast gcc_PRETTY_FUNCTION (Integral t_ulong) r
      = Returns (VInt t_ulong 100))
   \/ raises (checked_cast gcc_PRETTY_FUNCTION (Integral t_char)
                (VInt t_ulong 100)) = true
   \/ (exists r,
         checked_cast gcc_PRETTY_FUNCTION (Integral t_char) (VInt t_ulong 100)
         = Returns r /\
         raises (checked_cast gcc_PRETTY_FUNCTION (Integral t_ulong) r)
         = true)).
Proof.
  split; [reflexivity |].
  apply (round_trip_law gcc_PRETTY_FUNCTION t_ulong t_char 100).
  reflexivity.
Defined.

Lemma widening_safety_witness :
  (forall m, in_range t_schar m = true -> in_range t_int m = true) /\
  in_range t_schar (-5) = true /\
  checked_cast gcc_PRETTY_FUNCTION (Integral t_int) (VInt t_schar (-5))
  = Returns (VInt t_int (-5)) /\
  static_cast (Integral t_schar) (VInt t_int (-5)) = Some (VInt t_schar (-5)).
Proof.
  assert (Hsub : forall m, in_range t_schar m = true -> in_range t_int m = true).
  { intros m Hm. ranges. lia. }
  split; [exact Hsub |]. split; [reflexivity |].
  apply (widening_safety gcc_PRETTY_FUNCTION t_schar t_int (-5) Hsub).
  reflexivity.
Defined.

Lemma sign_loss_detection_witness :
  (is_signed t_int = true /\ is_signed t_uchar = false /\
   in_range t_int (-1) = true /\ -1 < 0 /\ bits t_uchar < bits t_int) /\
  raises (checked_cast gcc_PRETTY_FUNCTION (Integral t_uchar)
            (VInt t_int (-1))) = true.
Proof.
  split; [repeat split |].
  apply (sign_loss_detection gcc_PRETTY_FUNCTION t_int t_uchar (-1));
    reflexivity.
Defined.

Lemma magnitude_overflow_detection_witness :
  (in_range t_ulong 142 = true /\
   raises (checked_cast gcc_PRETTY_FUNCTION (Integral t_char)
             (VInt t_ulong 142)) = true) /\
  (in_range t_uint 4294967295 = true /\
   in_range t_int 4294967295 = false /\
   bits t_uint <= bits t_int /\
   exists m,
     checked_cast gcc_PRETTY_FUNCTION (Integral t_int) (VInt t_uint 4294967295)
     = Returns (VInt t_int m) /\
     in_range t_int m = true /\
     m mod 2 ^ bits t_int = 4294967295 mod 2 ^ bits t_int).
Proof.
  split.
  - split; [reflexivity |].
    apply (proj1 (magnitude_overflow_detection gcc_PRETTY_FUNCTION t_ulong
                    t_char 142 eq_refl)).
    split; [reflexivity |]. split; [reflexivity |]. intros _ _. reflexivity.
  - assert (Hle : bits t_uint <= bits t_int) by discriminate.
    split; [reflexivity |]. split; [reflexivity |]. split; [exact Hle |].
    apply (proj2 (magnitude_overflow_detection gcc_PRETTY_FUNCTION t_uint
                    t_int 4294967295 eq_refl) eq_refl).
    left. exact Hle.
Defined.

Lemma path_selection_witness :
  (Floating t_float <> type_of (VInt t_int 16777216) /\
   is_integral (type_of (VInt t_int 16777216)) = true) /\
  checked_cast gcc_PRETTY_FUNCTION (Floating t_float) (VInt t_int 16777216)
  = verified_conversion gcc_PRETTY_FUNCTION (Floating t_float)
      (VInt t_int 16777216).
Proof.
  assert (H : Floating t_float <> type_of (VInt t_int 16777216) /\
              is_integral (type_of (VInt t_int 16777216)) = true).
  { split; [discriminate | reflexivity]. }
  split; [exact H |].
  exact (proj1 (proj2 (path_selection gcc_PRETTY_FUNCTION (Floating t_float)
                         (VInt t_int 16777216))) H).
Defined.

Lemma pass_through_law_witness :
  is_integral (type_of (VPtr true p_char 4096)) = false /\
  checked_cast gcc_PRETTY_FUNCTION (Integral t_int) (VPtr true p_char 4096)
  = Returns (VPtr true p_char 4096) /\
  raises (checked_cast gcc_PRETTY_FUNCTION (Integral t_int)
            (VPtr true p_char 4096)) = false.
Proof.
  split; [reflexivity |].
  apply (pass_through_law gcc_PRETTY_FUNCTION (Integral t_int)
           (VPtr true p_char 4096)).
  reflexivity.
Defined.

Local Open Scope string_scope.

Lemma failure_signal_witness :
  let e := {| what := "checked_cast<>() overflowed: "
                      ++ gcc_PRETTY_FUNCTION (Integral t_char) size_t |} in
  checked_cast gcc_PRETTY_FUNCTION (Integral t_char) (VInt t_ulong 142)
  = Throws e /\
  what e = "checked_cast<>() overflowed" ++ ": "
           ++ gcc_PRETTY_FUNCTION (Integral t_char)
                (type_of (VInt t_ulong 142)) /\
  first_colon (what e) = "checked_cast<>() overflowed".
Proof.
  intros e. split; [reflexivity |].
  apply (proj1 (failure_signal gcc_PRETTY_FUNCTION unit)
           (Integral t_char) (VInt t_ulong 142) e).
  reflexivity.
Defined.

Local Close Scope string_scope.

Lemma invocation_discipline_witness :
  let run := checked_cast_call gcc_PRETTY_FUNCTION unit my_write
               (arguments 4096 142 8192) initially in
  (In (Integral t_char, VInt t_ulong 142)
      (combine (parameters my_write) (arguments 4096 142 8192)) /\
   raises (operator_U gcc_PRETTY_FUNCTION (Integral t_char)
             (container (VInt t_ulong 142))) = true) /\
  snd run = initially.
Proof.
  intros run.
  assert (Hin : In (Integral t_char, VInt t_ulong 142)
                  (combine (parameters my_write) (arguments 4096 142 8192)))
    by (simpl; auto).
  assert (Hr : raises (operator_U gcc_PRETTY_FUNCTION (Integral t_char)
                         (container (VInt t_ulong 142))) = true)
    by reflexivity.
  split; [split; assumption |].
  exact (proj1 (proj1 (proj2 (proj2
           (invocation_discipline gcc_PRETTY_FUNCTION unit my_write
              (arguments 4096 142 8192) initially)))
           (Integral t_char) (VInt t_ulong 142) Hin Hr)).
Defined.

Lemma comparison_without_conversion_witness :
  builtin_eq (VInt t_long (-1)) (VInt t_ulong 18446744073709551615)
  = Some true /\
  operator_eq (container (VInt t_long (-1))) (VInt t_ulong 18446744073709551615)
  = Returns true /\
  operator_ne (container (VInt t_long (-1))) (VInt t_ulong 18446744073709551615)
  = Returns false.
Proof.
  split; [reflexivity |].
  apply (proj1 (comparison_without_conversion (VInt t_long (-1))
                  (VInt t_ulong 18446744073709551615)) true).
  reflexivity.
Defined.

(** The comparison is not the conversion followed by a comparison: the
    container of a [size_t] 142 compares with a [char] without an error,
    although its conversion to [char] raises. *)
Example comparison_where_conversion_raises :
  operator_eq (container (VInt t_ulong 142)) (VInt t_char 100) = Returns false
  /\ raises (operator_U gcc_PRETTY_FUNCTION (Integral t_char)
               (container (VInt t_ulong 142))) = true.
Proof. split; reflexivity. Qed.

(** ** The demonstration program *)

(** Scenario 1: a size of 100 goes through [my_write], which is entered
    once with a [char] 100, and the result read back as a [size_t] is 100. *)
Example scenario_1 (str stdout : Z) :
  demo my_write str 100 stdout
  = (Returns (VInt t_char 100),
     {| state := tt;
        entered := [[VPtr true p_void str; VInt t_char 100;
                     VPtr false p_FILE stdout]] |})
  /\ static_cast size_t (VInt t_char 100) = Some (VInt t_ulong 100).
Proof. split; reflexivity. Qed.

(** Scenario 2: a size of 142 raises on the input side, [my_write] not
    entered. *)
Example scenario_2 (str stdout : Z) :
  raises (fst (demo my_write str 142 stdout)) = true /\
  entered (snd (demo my_write str 142 stdout)) = [] /\
  should_fail my_write str 142 stdout = true.
Proof. repeat split; reflexivity. Qed.

(** Scenario 3: with [my_write_ok] the failure is on the output side, after
    the callee was entered with the size unchanged. *)
Example scenario_3 (str stdout : Z) :
  raises (fst (demo my_write_ok str 256 stdout)) = true /\
  entered (snd (demo my_write_ok str 256 stdout))
  = [[VPtr true p_void str; VInt t_ulong 256; VPtr false p_FILE stdout]] /\
  should_fail my_write_ok str 256 stdout = true.
Proof. repeat split; reflexivity. Qed.

(** Scenario 4: the same with 256 on the input side. *)
Example scenario_4 (str stdout : Z) :
  raises (fst (demo my_write str 256 stdout)) = true /\
  entered (snd (demo my_write str 256 stdout)) = [] /\
  should_fail my_write str 256 stdout = true.
Proof. repeat split; reflexivity. Qed.

(** Every assertion of [main] holds. *)
Lemma main_succeeds (str stdout : Z) : main str stdout = true.
Proof. reflexivity. Qed.

(** * Further properties *)

(** ** More on the conversions between integral types *)

Ltac lebs :=
  repeat match goal with
    | |- context [?a <=? ?b] => destruct (Z.leb_spec a b)
    end.

Ltac cases :=
  repeat match goal with
    | |- context [match ?x with _ => _ end] => destruct x eqn:?
    end.

(** Between types of one signedness, the wider holds the values of the
    narrower. *)
Lemma in_range_wider (s t : int_type) (n : Z) :
  is_signed s = is_signed t -> bits s <= bits t ->
  in_range s n = true -> in_range t n = true.
Proof.
  intros Hsg Hb Hn.
  destruct s, t; try discriminate Hsg; ranges; lia.
Qed.

(** How a conversion to [t] and back can come back to the integer it
    started from without [t] holding that integer. *)
Lemma comes_back_changed (t s : int_type) (n : Z) :
  in_range s n = true ->
  int_conv s (int_conv t n) = n ->
  int_conv t n = n \/
  (n < 0 /\ int_conv t n = n + 2 ^ bits t) \/
  (int_conv t n < 0 /\ n = int_conv t n + 2 ^ bits s).
Proof.
  intros Hn.
  destruct s, t; ranges; eqbs; intros; eqbs; arith.
Qed.

(** ** Integers as floating-point numbers *)

(** A positive number lies between the two powers of two its number of
    digits gives. *)
Lemma digits2_pos_bounds (m : positive) :
  2 ^ (Z.pos (digits2_pos m) - 1) <= Z.pos m < 2 ^ Z.pos (digits2_pos m).
Proof.
  induction m as [m IH | m IH |]; cbn [digits2_pos].
  - rewrite Pos2Z.inj_succ.
    replace (Z.succ (Z.pos (digits2_pos m)) - 1)
      with (Z.succ (Z.pos (digits2_pos m) - 1)) by lia.
    rewrite !Z.pow_succ_r by lia.
    generalize dependent (2 ^ (Z.pos (digits2_pos m) - 1)).
    generalize dependent (2 ^ Z.pos (digits2_pos m)). intros; lia.
  - rewrite Pos2Z.inj_succ.
    replace (Z.succ (Z.pos (digits2_pos m)) - 1)
      with (Z.succ (Z.pos (digits2_pos m) - 1)) by lia.
    rewrite !Z.pow_succ_r by lia.
    generalize dependent (2 ^ (Z.pos (digits2_pos m) - 1)).
    generalize dependent (2 ^ Z.pos (digits2_pos m)). intros; lia.
  - simpl. lia.
Qed.

Lemma iter_xO_pow (m d : positive) :
  Z.pos (Pos.iter xO m d) = Z.pos m * 2 ^ Z.pos d.
Proof.
  induction d as [| d IH] using Pos.peano_ind.
  - simpl. lia.
  - rewrite Pos.iter_succ, Pos2Z.inj_xO, IH, Pos2Z.inj_succ,
      Z.pow_succ_r by lia. lia.
Qed.

Lemma digits2_pos_iter_xO (m d : positive) :
  digits2_pos (Pos.iter xO m d) = (digits2_pos m + d)%positive.
Proof.
  induction d as [| d IH] using Pos.peano_ind.
  - simpl. lia.
  - rewrite Pos.iter_succ. cbn [digits2_pos]. rewrite IH. lia.
Qed.

(** A number of at most [prec] digits is its own floating-point datum, up
    to the normalising shift. *)
Lemma binary_round_exact (prec emax : Z) (s : bool) (m : positive) :
  0 < prec -> prec < emax ->
  Z.pos (digits2_pos m) <= prec ->
  exists m' e,
    binary_round prec emax s m 0 = S754_finite s m' e /\
    e <= 0 /\ Z.pos m' = Z.pos m * 2 ^ (- e).
Proof.
  intros Hprec Hemax Hd.
  unfold binary_round, shl_align.
  assert (Hfexp : fexp prec emax (Z.pos (digits2_pos m) + 0)
                  = Z.pos (digits2_pos m) - prec).
  { unfold fexp, emin. lia. }
  rewrite Hfexp.
  assert (Haux : forall mz ez,
             Z.pos (digits2_pos mz) + ez = Z.pos (digits2_pos m) ->
             ez = Z.pos (digits2_pos m) - prec ->
             binary_round_aux prec emax s (Z.pos mz) ez loc_Exact
             = S754_finite s mz ez).
  { intros mz ez Hdig Hez.
    unfold binary_round_aux, shr_fexp.
    cbn [Zdigits2 shr_record_of_loc].
    assert (Hf : fexp prec emax (Z.pos (digits2_pos mz) + ez) - ez = 0).
    { unfold fexp, emin. lia. }
    rewrite Hf. cbn [shr shr_m loc_of_shr_record round_nearest_even
                     Zdigits2 shr_record_of_loc].
    rewrite Hf. cbn [shr shr_m].
    destruct (Z.leb_spec ez (emax - prec)); trivial. lia. }
  destruct (Z.pos (digits2_pos m) - prec - 0) as [| d | d] eqn:Hdiff;
    try lia.
  - exists m, 0. rewrite Haux by lia. repeat split; lia.
  - exists (Pos.iter xO m d), (Z.pos (digits2_pos m) - prec).
    rewrite Haux.
    + repeat split; try lia. rewrite iter_xO_pow. f_equal. f_equal. lia.
    + rewrite digits2_pos_iter_xO, Pos2Z.inj_add. lia.
    + reflexivity.
Qed.

Lemma truncate_float_of_Z (f : float_type) (n : Z) :
  - 2 ^ prec_of f < n < 2 ^ prec_of f ->
  truncate (float_of_Z f n) = Some n.
Proof.
  intros Hn. unfold float_of_Z, binary_normalize.
  assert (Hp : 0 < prec_of f /\ prec_of f < emax_of f) by (destruct f; simpl; lia).
  destruct n as [| m | m]; trivial.
  - destruct (binary_round_exact (prec_of f) (emax_of f) false m)
      as (m' & e & -> & He & Hm'); try tauto.
    { pose proof (digits2_pos_bounds m).
      destruct (Z.le_gt_cases (Z.pos (digits2_pos m)) (prec_of f)); trivial.
      assert (2 ^ prec_of f <= 2 ^ (Z.pos (digits2_pos m) - 1))
        by (apply Z.pow_le_mono_r; lia). lia. }
    cbn [truncate]. f_equal.
    rewrite <- (Z.opp_involutive e), Z.shiftl_opp_r, Z.shiftr_div_pow2 by lia.
    rewrite Hm'. apply Z.div_mul.
    pose proof (Z.pow_pos_nonneg 2 (- e)). lia.
  - destruct (binary_round_exact (prec_of f) (emax_of f) true m)
      as (m' & e & -> & He & Hm'); try tauto.
    { pose proof (digits2_pos_bounds m).
      destruct (Z.le_gt_cases (Z.pos (digits2_pos m)) (prec_of f)); trivial.
      assert (2 ^ prec_of f <= 2 ^ (Z.pos (digits2_pos m) - 1))
        by (apply Z.pow_le_mono_r; lia). lia. }
    cbn [truncate]. f_equal.
    rewrite <- (Z.opp_involutive e), Z.shiftl_opp_r, Z.shiftr_div_pow2 by lia.
    rewrite Hm', Z.div_mul; [lia |].
    pose proof (Z.pow_pos_nonneg 2 (- e)). lia.
Qed.

(** ** Types of the results *)

Lemma static_cast_type (U : ctype) (v u : value) :
  static_cast U v = Some u -> type_of u = U.
Proof.
  unfold static_cast. destruct (is_same U (type_of v)) eqn:Hsame.
  - apply is_same_eq in Hsame. now intros [= <-].
  - destruct U, v; unfold option_map; cases; try discriminate;
      now intros [= <-].
Qed.

Lemma implicit_conversion_type (U : ctype) (v u : value) :
  implicit_conversion U v = Some u -> type_of u = U.
Proof.
  unfold implicit_conversion. destruct (is_same U (type_of v)) eqn:Hsame.
  - apply is_same_eq in Hsame. now intros [= <-].
  - destruct U, v; try apply static_cast_type.
    cases; try discriminate. now intros [= <-].
Qed.

(** ** The comparison of the container *)

(** The type two operands are compared in holds both when they are of one
    signedness, or neither is negative. *)
Lemma common_type_holds (s t : int_type) (a b : Z) :
  in_range s a = true -> in_range t b = true ->
  is_signed s = is_signed t \/ (0 <= a /\ 0 <= b) ->
  in_range (common_type s t) a = true /\ in_range (common_type s t) b = true.
Proof.
  intros Ha Hb Hsign.
  destruct s, t;
    match goal with
    | |- context [common_type ?x ?y] =>
        let c := eval vm_compute in (common_type x y) in
        change (common_type x y) with c
    end;
    split; ranges;
    destruct Hsign as [Hsg | [? ?]]; try discriminate Hsg; lia.
Qed.


Section FurtherProperties.

Variable PRETTY_FUNCTION : ctype -> ctype -> string.

(** ** What a conversion between integral types returns *)

Lemma checked_cast_returns_inv (s t : int_type) (n : Z) (r : value) :
  in_range s n = true ->
  checked_cast PRETTY_FUNCTION (Integral t) (VInt s n) = Returns r ->
  r = VInt t (int_conv t n) /\ int_conv s (int_conv t n) = n.
Proof.
  intros Hn. destruct (int_type_eqb t s) eqn:Hts.
  - apply int_type_eqb_eq in Hts. subst t.
    pose proof (checked_cast_same PRETTY_FUNCTION (VInt s n)) as Hsame.
    simpl in Hsame. rewrite Hsame. intros [= <-].
    now rewrite !(int_conv_id s n Hn).
  - rewrite checked_cast_integral by trivial.
    unfold verified_integral_conversion.
    destruct (Z.eqb_spec (int_conv s (int_conv t n)) n); try discriminate.
    now intros [= <-].
Qed.

(** X1, no false alarm.  A value of [s] that is also a value of [t] is
    converted to [t] without an error, and the result denotes the same
    integer. *)
Theorem fitting_value_converts (s t : int_type) (n : Z) :
  in_range s n = true -> in_range t n = true ->
  checked_cast PRETTY_FUNCTION (Integral t) (VInt s n) = Returns (VInt t n).
Proof.
  intros Hs Ht. destruct (int_type_eqb t s) eqn:Hts.
  - apply int_type_eqb_eq in Hts. subst t.
    exact (checked_cast_same PRETTY_FUNCTION (VInt s n)).
  - rewrite checked_cast_integral by trivial.
    unfold verified_integral_conversion.
    now rewrite (int_conv_id t n Ht), (int_conv_id s n Hs), Z.eqb_refl.
Qed.

(** X2, soundness within one signedness.  Between two signed types, or
    two unsigned ones, a conversion that returns has kept the integer: the
    value fits the type asked for and the result denotes it. *)
Theorem same_signedness_preserves_value (s t : int_type) (n : Z)
  (r : value) :
  in_range s n = true -> is_signed s = is_signed t ->
  checked_cast PRETTY_FUNCTION (Integral t) (VInt s n) = Returns r ->
  r = VInt t n /\ in_range t n = true.
Proof.
  intros Hn Hsg Hr.
  apply checked_cast_returns_inv in Hr as [-> Hback]; trivial.
  assert (Ht : in_range t n = true).
  { apply comes_back_iff in Hback as [Hin | [Hle | (Hu & Hs & _)]]; trivial.
    - now apply (in_range_wider s t).
    - congruence. }
  now rewrite (int_conv_id t n Ht).
Qed.

(** X3, what a returned integer can be.  A conversion that returns gives
    a value [m] of the type asked for which is the source integer [n], or
    [n + 2 ^ bits t] for a negative [n], or a negative [m] of which [n] is
    [m + 2 ^ bits s]; nothing else. *)
Theorem returned_value_changes (s t : int_type) (n : Z) (r : value) :
  in_range s n = true ->
  checked_cast PRETTY_FUNCTION (Integral t) (VInt s n) = Returns r ->
  exists m, r = VInt t m /\ in_range t m = true /\
    (m = n \/ (n < 0 /\ m = n + 2 ^ bits t) \/ (m < 0 /\ n = m + 2 ^ bits s)).
Proof.
  intros Hn Hr.
  apply checked_cast_returns_inv in Hr as [-> Hback]; trivial.
  exists (int_conv t n). split; trivial. split.
  - apply int_conv_in_range.
  - now apply comes_back_changed.
Qed.

(** X4, integers that a floating type holds exactly.  An integer below
    [2 ^ 24] in magnitude asked for as a [float], or below [2 ^ 53] asked
    for as a [double], is converted without an error, and the result cast
    back is the value started from.  This covers every value of the types
    of at most 16 bits for [float] and of at most 32 bits for [double]. *)
Theorem exact_floating_conversion (s : int_type) (f : float_type) (n : Z) :
  in_range s n = true ->
  - 2 ^ prec_of f < n < 2 ^ prec_of f ->
  checked_cast PRETTY_FUNCTION (Floating f) (VInt s n)
  = Returns (VFloat f (float_of_Z f n)) /\
  static_cast (Integral s) (VFloat f (float_of_Z f n)) = Some (VInt s n).
Proof.
  intros Hn Hsmall.
  assert (Hback : static_cast (Integral s) (VFloat f (float_of_Z f n))
                  = Some (VInt s n)).
  { unfold static_cast. cbn [is_same type_of]. unfold Z_of_float.
    rewrite (truncate_float_of_Z f n Hsmall), Hn.
    destruct s; trivial.
    apply in_range_iff in Hn. cbv [min_of max_of is_signed bits] in Hn.
    assert (Hcases : n = 0 \/ n = 1) by lia.
    destruct Hcases as [-> | ->]; now destruct f. }
  split; trivial.
  assert (Hthere : static_cast (Floating f) (VInt s n)
                   = Some (VFloat f (float_of_Z f n))) by reflexivity.
  unfold checked_cast, checked_cast_branch.
  cbn [is_same type_of is_integral negb].
  rewrite Hthere, Hback.
  unfold builtin_ne. now rewrite builtin_eq_same, Z.eqb_refl by trivial.
Qed.

(** ** The conversion operator *)

Lemma operator_U_type (U : ctype) (c : checked_cast_call_container)
  (u : value) :
  operator_U PRETTY_FUNCTION U c = Returns u -> type_of u = U.
Proof.
  unfold operator_U.
  destruct (checked_cast PRETTY_FUNCTION U (_result c)) as [r | e |];
    try discriminate.
  destruct (implicit_conversion U r) as [u' |] eqn:Hconv; try discriminate.
  intros [= <-]. now apply implicit_conversion_type in Hconv.
Qed.

Lemma operator_U_same (v : value) :
  operator_U PRETTY_FUNCTION (type_of v) (container v) = Returns v.
Proof.
  unfold operator_U. simpl _result. rewrite checked_cast_same.
  unfold implicit_conversion. now rewrite is_same_refl.
Qed.

(** On an integer asked for as an integral type, the operator is the
    checked conversion. *)
Lemma operator_U_integral (t s : int_type) (n : Z) :
  in_range s n = true ->
  operator_U PRETTY_FUNCTION (Integral t) (container (VInt s n))
  = checked_cast PRETTY_FUNCTION (Integral t) (VInt s n).
Proof.
  intros Hn. unfold operator_U. simpl _result.
  destruct (checked_cast PRETTY_FUNCTION (Integral t) (VInt s n))
    as [r | e |] eqn:Hr; trivial.
  apply checked_cast_returns_inv in Hr as [-> _]; trivial.
  unfold implicit_conversion. cbn [is_same type_of].
  now rewrite int_type_eqb_refl.
Qed.


(** X16, floating-point sources are not policed either.  The container of
    a floating-point number never raises; asked to become an integer other
    than [bool], it gives the integer part when that fits, the fraction
    dropped without an error. *)
Theorem floating_source_unchecked (U : ctype) (f : float_type)
  (x : spec_float) :
  raises (operator_U PRETTY_FUNCTION U (container (VFloat f x))) = false /\
  (forall t n,
     U = Integral t -> t <> t_bool ->
     truncate x = Some n -> in_range t n = true ->
     operator_U PRETTY_FUNCTION U (container (VFloat f x))
     = Returns (VInt t n)).
Proof.
  unfold operator_U. simpl _result.
  rewrite (checked_cast_not_integral PRETTY_FUNCTION U (VFloat f x) eq_refl).
  split.
  - now destruct (implicit_conversion U (VFloat f x)).
  - intros t n -> Hbool Htrunc Hin.
    unfold implicit_conversion, static_cast. cbn [is_same type_of].
    unfold Z_of_float. rewrite Htrunc, Hin.
    now destruct t.
Qed.

(** X6, comparison where the signs agree.  Between integers of types of
    one signedness, or when neither integer is negative, [operator==] says
    whether the two integers are equal, and [operator!=] whether they
    differ. *)
Theorem comparison_exact (s t : int_type) (a b : Z) :
  in_range s a = true -> in_range t b = true ->
  is_signed s = is_signed t \/ (0 <= a /\ 0 <= b) ->
  operator_eq (container (VInt s a)) (VInt t b) = Returns (a =? b) /\
  operator_ne (container (VInt s a)) (VInt t b) = Returns (negb (a =? b)).
Proof.
  intros Ha Hb Hsign.
  destruct (common_type_holds s t a b Ha Hb Hsign) as [Hca Hcb].
  unfold operator_ne, operator_eq. cbn [_result builtin_eq].
  now rewrite (int_conv_id _ a Hca), (int_conv_id _ b Hcb).
Qed.

(** X7, comparison across signs.  When the stored integer is negative and
    the comparison is made in an unsigned type, [operator==] compares the
    stored integer increased by two to the width of that type: the
    container of [-1] as an [int] equals 4294967295 as an [unsigned int]. *)
Theorem comparison_across_signs (s t : int_type) (a b : Z) :
  in_range s a = true -> in_range t b = true ->
  is_signed (common_type s t) = false -> a < 0 ->
  operator_eq (container (VInt s a)) (VInt t b)
  = Returns (a + 2 ^ bits (common_type s t) =? b).
Proof.
  intros Ha Hb Hc Hneg.
  unfold operator_eq. cbn [_result builtin_eq].
  match goal with
  | |- Returns (?x =? ?y) = Returns (?x' =? ?y') =>
      assert (Hxy : x = x' /\ y = y'); [| now destruct Hxy as [-> ->]]
  end.
  revert Hc.
  destruct s, t;
    match goal with
    | |- context [common_type ?x ?y] =>
        let c := eval vm_compute in (common_type x y) in
        change (common_type x y) with c
    end;
    intros Hc; try discriminate Hc; ranges; try lia; split; arith.
Qed.

(** What becomes of a [size_t] asked for as a [char]: kept up to 127,
    refused from 128 on, and taken for the negative number it is the two's
    complement of for the last 128 values. *)
Lemma size_as_char (n : Z) :
  0 <= n < 2 ^ 64 ->
  checked_cast PRETTY_FUNCTION (Integral t_char) (VInt t_ulong n) =
  if n <=? 127 then Returns (VInt t_char n)
  else if 2 ^ 64 - 128 <=? n then Returns (VInt t_char (n - 2 ^ 64))
  else checked_cast_throw (PRETTY_FUNCTION (Integral t_char) size_t).
Proof.
  intros Hn.
  rewrite checked_cast_integral by (trivial; ranges; lia).
  unfold verified_integral_conversion, checked_cast_throw.
  ranges.
  lebs; eqbs; try (exfalso; arith); try reflexivity; do 2 f_equal; arith.
Qed.

(** What becomes of an [ssize_t] asked for as a [char]. *)
Lemma ssize_as_char (n : Z) :
  - 2 ^ 63 <= n < 2 ^ 63 ->
  checked_cast PRETTY_FUNCTION (Integral t_char) (VInt t_long n) =
  if (-128 <=? n) && (n <=? 127) then Returns (VInt t_char n)
  else checked_cast_throw (PRETTY_FUNCTION (Integral t_char) ssize_t).
Proof.
  intros Hn.
  rewrite checked_cast_integral by (trivial; ranges; lia).
  unfold verified_integral_conversion, checked_cast_throw.
  ranges.
  lebs; cbn [andb]; eqbs; try (exfalso; arith); try reflexivity; do 2 f_equal; arith.
Qed.
(** ** Wrapped calls *)

Variable world : Type.

Lemma checked_cast_call_as_unfold (U : ctype) (fn : function world)
  (args : list value) (m : machine world) :
  checked_cast_call_as PRETTY_FUNCTION world U fn args m =
  match bind_parameters PRETTY_FUNCTION (parameters fn) (map container args)
  with
  | Returns actuals =>
      (operator_U PRETTY_FUNCTION U
         (container (fst (body fn actuals (state m)))),
       {| state := snd (body fn actuals (state m));
          entered := actuals :: entered m |})
  | Throws e => (Throws e, m)
  | Stuck => (Stuck, m)
  end.
Proof.
  unfold checked_cast_call_as, bind, lift.
  rewrite checked_cast_call_unfold.
  now destruct (bind_parameters PRETTY_FUNCTION (parameters fn)
                  (map container args)).
Qed.

Lemma bind_parameters_same (args : list value) :
  bind_parameters PRETTY_FUNCTION (map type_of args) (map container args)
  = Returns args.
Proof.
  induction args as [| a args IH]; simpl; trivial.
  now rewrite operator_U_same, IH.
Qed.

(** X8, the callee gets what it declares.  When the parameters are bound,
    there is one for each type of the signature and each has that type. *)
Theorem bound_parameters_typed (ps : list ctype)
  (args : list checked_cast_call_container) (actuals : list value) :
  bind_parameters PRETTY_FUNCTION ps args = Returns actuals ->
  Forall2 (fun T x => type_of x = T) ps actuals.
Proof.
  revert args actuals.
  induction ps as [| T ps IH]; intros [| a args] actuals; simpl;
    try discriminate.
  - intros [= <-]. constructor.
  - destruct (operator_U PRETTY_FUNCTION T a) as [x | e1 |] eqn:Hx;
      destruct (bind_parameters PRETTY_FUNCTION ps args) as [xs | e2 |] eqn:Hxs;
      try discriminate.
    intros [= <-]. constructor.
    + exact (operator_U_type T a x Hx).
    + now apply (IH args).
Qed.

(** X9, failure on the output side.  When the arguments were bound and the
    conversion of what the callee returned raises, the call raises after
    the callee has run: it was entered once, and what it did to its world
    stays done. *)
Theorem output_failure_after_entry (U : ctype) (fn : function world)
  (args actuals : list value) (m : machine world) :
  bind_parameters PRETTY_FUNCTION (parameters fn) (map container args)
  = Returns actuals ->
  raises (operator_U PRETTY_FUNCTION U
            (container (fst (body fn actuals (state m))))) = true ->
  let run := checked_cast_call_as PRETTY_FUNCTION world U fn args m in
  raises (fst run) = true /\
  state (snd run) = snd (body fn actuals (state m)) /\
  entered (snd run) = actuals :: entered m.
Proof.
  intros Hbind Hout run. subst run.
  rewrite checked_cast_call_as_unfold, Hbind. simpl. auto.
Qed.

(** X10, a call that returns.  A wrapped call whose result could be read
    has bound every parameter, entered the callee exactly once on them, and
    returns the conversion of what the callee returned, in the world the
    callee left. *)
Theorem returning_call_entered_once (U : ctype) (fn : function world)
  (args : list value) (m m' : machine world) (u : value) :
  checked_cast_call_as PRETTY_FUNCTION world U fn args m = (Returns u, m') ->
  exists actuals,
    bind_parameters PRETTY_FUNCTION (parameters fn) (map container args)
    = Returns actuals /\
    state m' = snd (body fn actuals (state m)) /\
    entered m' = actuals :: entered m /\
    operator_U PRETTY_FUNCTION U (container (fst (body fn actuals (state m))))
    = Returns u.
Proof.
  rewrite checked_cast_call_as_unfold.
  destruct (bind_parameters PRETTY_FUNCTION (parameters fn)
              (map container args)) as [actuals | e |]; try discriminate.
  intros [= Hu <-]. exists actuals. auto.
Qed.

(** X11, transparency.  When every argument has the type of its
    parameter and the result is read as the type the callee returns, the
    wrapped call is the call: the callee gets the arguments as they are and
    its result comes back as it is, with no error. *)
Theorem transparent_on_exact_types (fn : function world) (args : list value)
  (m : machine world) :
  map type_of args = parameters fn ->
  checked_cast_call_as PRETTY_FUNCTION world
    (type_of (fst (body fn args (state m)))) fn args m
  = (Returns (fst (body fn args (state m))),
     {| state := snd (body fn args (state m));
        entered := args :: entered m |}).
Proof.
  intros Hty. rewrite checked_cast_call_as_unfold, <- Hty.
  now rewrite bind_parameters_same, operator_U_same.
Qed.

End FurtherProperties.

(** ** first_colon *)

Local Open Scope string_scope.

Lemma index_colon_cons (c : ascii) (s : string) :
  String.index 0 ":" (String c s) =
  if Ascii.eqb c ":" then Some 0%nat
  else match String.index 0 ":" s with
       | Some n => Some (S n)
       | None => None
       end.
Proof.
  cbn [String.index String.prefix].
  destruct (ascii_dec ":" c) as [<- | Hne].
  - now destruct s.
  - destruct (Ascii.eqb_spec c ":") as [-> | _]; [now destruct Hne | trivial].
Qed.

Lemma first_colon_cons (c : ascii) (s : string) :
  first_colon (String c s) =
  if Ascii.eqb c ":" then "" else String c (first_colon s).
Proof.
  unfold first_colon. rewrite index_colon_cons.
  destruct (Ascii.eqb c ":"); trivial.
  now destruct (String.index 0 ":" s).
Qed.

(** X12, what [first_colon] returns.  The result has no colon, and the
    string is the result alone or the result, a colon and a rest. *)
Theorem first_colon_spec (s : string) :
  String.index 0 ":" (first_colon s) = None /\
  (s = first_colon s \/ exists rest, s = first_colon s ++ ":" ++ rest).
Proof.
  induction s as [| c s [IHno IHsplit]].
  - split; [reflexivity | now left].
  - rewrite first_colon_cons.
    destruct (Ascii.eqb_spec c ":") as [-> | Hne].
    + split; [reflexivity | right; now exists s].
    + split.
      * rewrite index_colon_cons, IHno.
        now destruct (Ascii.eqb_spec c ":").
      * destruct IHsplit as [Heq | [rest Heq]].
        -- left. now f_equal.
        -- right. exists rest. simpl. now f_equal.
Qed.

(** X13, [first_colon] finds the text before the colon.  A text without a
    colon is returned whole, and is returned from itself followed by a
    colon and anything. *)
Theorem first_colon_append (a b : string) :
  String.index 0 ":" a = None ->
  first_colon a = a /\ first_colon (a ++ ":" ++ b) = a.
Proof.
  induction a as [| c a IH]; intros Hno.
  - split; [reflexivity |]. simpl. now rewrite first_colon_cons.
  - rewrite index_colon_cons in Hno. simpl.
    rewrite !first_colon_cons.
    destruct (Ascii.eqb c ":"); try discriminate.
    destruct (String.index 0 ":" a); try discriminate.
    destruct (IH eq_refl) as [H1 H2]. simpl in H2. now rewrite H1, H2.
Qed.

Local Close Scope string_scope.

(** ** The demonstration for every size *)

(** A [char] read back as a [size_t], compared with a [size_t]. *)
Lemma char_read_back (m n : Z) :
  -128 <= m <= 127 -> 0 <= n < 2 ^ 64 ->
  assertEqual (static_cast size_t (VInt t_char m)) (Some (VInt t_ulong n))
  = (int_conv t_ulong m =? n).
Proof.
  intros Hm Hn. unfold size_t.
  rewrite static_cast_integral by reflexivity.
  unfold assertEqual.
  rewrite builtin_eq_same
    by (auto using int_conv_in_range; ranges; lia).
  now destruct (int_conv t_ulong m =? n).
Qed.

Lemma demo_my_write (str n stdout : Z) :
  demo my_write str n stdout =
  match operator_U gcc_PRETTY_FUNCTION (Integral t_char)
          (container (VInt t_ulong n)) with
  | Returns size =>
      (operator_U gcc_PRETTY_FUNCTION (Integral t_char) (container size),
       {| state := tt;
          entered := [[VPtr true p_void str; size; VPtr false p_FILE stdout]]
       |})
  | Throws e => (Throws e, initially)
  | Stuck => (Stuck, initially)
  end.
Proof.
  unfold demo. rewrite checked_cast_call_as_unfold.
  cbn [my_write parameters arguments map bind_parameters].
  change (operator_U gcc_PRETTY_FUNCTION (Pointer true p_void)
            (container (VPtr true p_char str)))
    with (@Returns value (VPtr true p_void str)).
  change (operator_U gcc_PRETTY_FUNCTION (Pointer false p_FILE)
            (container (VPtr false p_FILE stdout)))
    with (@Returns value (VPtr false p_FILE stdout)).
  now destruct (operator_U gcc_PRETTY_FUNCTION (Integral t_char)
                  (container (VInt t_ulong n))).
Qed.

Lemma demo_my_write_ok (str n stdout : Z) :
  demo my_write_ok str n stdout =
  (operator_U gcc_PRETTY_FUNCTION (Integral t_char)
     (container (VInt t_long (int_conv t_long n))),
   {| state := tt;
      entered := [[VPtr true p_void str; VInt t_ulong n;
                   VPtr false p_FILE stdout]] |}).
Proof.
  unfold demo. rewrite checked_cast_call_as_unfold.
  cbn [my_write_ok parameters arguments map bind_parameters].
  change (operator_U gcc_PRETTY_FUNCTION (Pointer true p_void)
            (container (VPtr true p_char str)))
    with (@Returns value (VPtr true p_void str)).
  change (operator_U gcc_PRETTY_FUNCTION (Pointer false p_FILE)
            (container (VPtr false p_FILE stdout)))
    with (@Returns value (VPtr false p_FILE stdout)).
  pose proof (operator_U_same gcc_PRETTY_FUNCTION (VInt t_ulong n)) as Hsame.
  cbn [type_of] in Hsame. unfold size_t. rewrite Hsame.
  reflexivity.
Qed.

(** X14, [my_write] behind the wrapper, for every size.  Up to 127 the
    callee is entered with the size and the block of [main] headed "Should
    pass" succeeds.  From 128 to [2 ^ 64 - 129] the call raises on the input
    side, the callee is not entered, and the handler's assertion holds.
    The last 128 sizes reach the callee as the negative [char]s from -128
    to -1, with no error. *)
Theorem my_write_sizes (str n stdout : Z) :
  0 <= n < 2 ^ 64 ->
  (n <= 127 ->
   demo my_write str n stdout
   = (Returns (VInt t_char n),
      {| state := tt;
         entered := [[VPtr true p_void str; VInt t_char n;
                      VPtr false p_FILE stdout]] |}) /\
   should_pass my_write str n stdout = true) /\
  (127 < n < 2 ^ 64 - 128 ->
   raises (fst (demo my_write str n stdout)) = true /\
   snd (demo my_write str n stdout) = initially /\
   should_fail my_write str n stdout = true) /\
  (2 ^ 64 - 128 <= n ->
   demo my_write str n stdout
   = (Returns (VInt t_char (n - 2 ^ 64)),
      {| state := tt;
         entered := [[VPtr true p_void str; VInt t_char (n - 2 ^ 64);
                      VPtr false p_FILE stdout]] |}) /\
   should_pass my_write str n stdout = true).
Proof.
  intros Hn. unfold should_fail, should_pass. rewrite demo_my_write.
  rewrite operator_U_integral by (ranges; lia).
  rewrite size_as_char by trivial.
  split; [| split]; intros Hcase; lebs; try lia.
  - pose proof (operator_U_same gcc_PRETTY_FUNCTION (VInt t_char n)) as H1.
    cbn [type_of] in H1. rewrite H1. split; trivial. cbn [fst].
    rewrite char_read_back by lia. ranges. eqbs; trivial. arith.
  - repeat split.
  - pose proof (operator_U_same gcc_PRETTY_FUNCTION
                  (VInt t_char (n - 2 ^ 64))) as H1.
    cbn [type_of] in H1. rewrite H1. split; trivial. cbn [fst].
    rewrite char_read_back by lia. ranges. eqbs; trivial. arith.
Qed.

(** X15, [my_write_ok] behind the wrapper, for every size.  The callee is
    always entered, with the size as it is.  Its result is read as a [char]
    up to 127; from 128 to [2 ^ 64 - 129] reading it raises, on the output
    side; for the last 128 sizes it is read as a negative [char], with no
    error. *)
Theorem my_write_ok_sizes (str n stdout : Z) :
  0 <= n < 2 ^ 64 ->
  entered (snd (demo my_write_ok str n stdout))
  = [[VPtr true p_void str; VInt t_ulong n; VPtr false p_FILE stdout]] /\
  (n <= 127 ->
   fst (demo my_write_ok str n stdout) = Returns (VInt t_char n) /\
   should_pass my_write_ok str n stdout = true) /\
  (127 < n < 2 ^ 64 - 128 ->
   raises (fst (demo my_write_ok str n stdout)) = true /\
   should_fail my_write_ok str n stdout = true) /\
  (2 ^ 64 - 128 <= n ->
   fst (demo my_write_ok str n stdout) = Returns (VInt t_char (n - 2 ^ 64)) /\
   should_pass my_write_ok str n stdout = true).
Proof.
  intros Hn. unfold should_fail, should_pass. rewrite demo_my_write_ok.
  split; [reflexivity |]. cbn [fst].
  pose proof (int_conv_in_range t_long n) as Hlong.
  rewrite operator_U_integral by trivial.
  rewrite ssize_as_char by (ranges; lia).
  assert (Hconv : int_conv t_long n = if n <? 2 ^ 63 then n else n - 2 ^ 64).
  { ranges. destruct (Z.ltb_spec n 9223372036854775808); arith. }
  rewrite Hconv.
  split; [| split]; intros Hcase;
    destruct (Z.ltb_spec n (2 ^ 63)); lebs; cbn [andb]; try lia.
  - split; trivial.
    rewrite char_read_back by lia. ranges. eqbs; trivial. arith.
  - repeat split.
  - repeat split.
  - split; trivial.
    rewrite char_read_back by lia. ranges. eqbs; trivial. arith.
Qed.

(** ** The further properties at work *)

Lemma fitting_value_converts_witness :
  (in_range t_ulong 100 = true /\ in_range t_char 100 = true) /\
  checked_cast gcc_PRETTY_FUNCTION (Integral t_char) (VInt t_ulong 100)
  = Returns (VInt t_char 100).
Proof.
  split; [split; reflexivity |].
  apply (fitting_value_converts gcc_PRETTY_FUNCTION t_ulong t_char 100);
    reflexivity.
Defined.

Lemma same_signedness_preserves_value_witness :
  (in_range t_long 100 = true /\ is_signed t_long = is_signed t_char /\
   checked_cast gcc_PRETTY_FUNCTION (Integral t_char) (VInt t_long 100)
   = Returns (VInt t_char 100)) /\
  VInt t_char 100 = VInt t_char 100 /\ in_range t_char 100 = true.
Proof.
  split; [repeat split |].
  apply (same_signedness_preserves_value gcc_PRETTY_FUNCTION t_long t_char
           100 (VInt t_char 100));
    reflexivity.
Defined.

Lemma returned_value_changes_witness :
  (in_range t_int (-1) = true /\
   checked_cast gcc_PRETTY_FUNCTION (Integral t_uint) (VInt t_int (-1))
   = Returns (VInt t_uint 4294967295)) /\
  exists m, VInt t_uint 4294967295 = VInt t_uint m /\
    in_range t_uint m = true /\
    (m = -1 \/ (-1 < 0 /\ m = -1 + 2 ^ bits t_uint) \/
     (m < 0 /\ -1 = m + 2 ^ bits t_int)).
Proof.
  split; [split; reflexivity |].
  apply (returned_value_changes gcc_PRETTY_FUNCTION t_int t_uint (-1)
           (VInt t_uint 4294967295));
    reflexivity.
Defined.

Lemma exact_floating_conversion_witness :
  (in_range t_int 2147483647 = true /\
   - 2 ^ prec_of t_double < 2147483647 < 2 ^ prec_of t_double) /\
  checked_cast gcc_PRETTY_FUNCTION (Floating t_double) (VInt t_int 2147483647)
  = Returns (VFloat t_double (float_of_Z t_double 2147483647)) /\
  static_cast (Integral t_int)
    (VFloat t_double (float_of_Z t_double 2147483647))
  = Some (VInt t_int 2147483647).
Proof.
  split; [repeat split |].
  apply (exact_floating_conversion gcc_PRETTY_FUNCTION t_int t_double
           2147483647);
    [reflexivity | split; reflexivity].
Defined.


Lemma floating_source_unchecked_witness :
  let x := S754_finite false 15 (-2) in
  (Integral t_int = Integral t_int /\ t_int <> t_bool /\
   truncate x = Some 3 /\ in_range t_int 3 = true) /\
  operator_U gcc_PRETTY_FUNCTION (Integral t_int)
    (container (VFloat t_double x))
  = Returns (VInt t_int 3).
Proof.
  intros x.
  assert (Hbool : t_int <> t_bool) by discriminate.
  split; [repeat split; trivial |].
  apply (proj2 (floating_source_unchecked gcc_PRETTY_FUNCTION
                  (Integral t_int) t_double x) t_int 3);
    trivial.
Defined.

Lemma comparison_exact_witness :
  (in_range t_ulong 142 = true /\ in_range t_char 100 = true /\
   (is_signed t_ulong = is_signed t_char \/ (0 <= 142 /\ 0 <= 100))) /\
  operator_eq (container (VInt t_ulong 142)) (VInt t_char 100)
  = Returns (142 =? 100) /\
  operator_ne (container (VInt t_ulong 142)) (VInt t_char 100)
  = Returns (negb (142 =? 100)).
Proof.
  assert (H : is_signed t_ulong = is_signed t_char \/ (0 <= 142 /\ 0 <= 100))
    by (right; lia).
  split; [repeat split; trivial |].
  apply (comparison_exact t_ulong t_char 142 100); trivial.
Defined.

Lemma comparison_across_signs_witness :
  (in_range t_int (-1) = true /\ in_range t_uint 4294967295 = true /\
   is_signed (common_type t_int t_uint) = false /\ -1 < 0) /\
  operator_eq (container (VInt t_int (-1))) (VInt t_uint 4294967295)
  = Returns (-1 + 2 ^ bits (common_type t_int t_uint) =? 4294967295).
Proof.
  split; [repeat split |].
  apply (comparison_across_signs t_int t_uint (-1) 4294967295); reflexivity.
Defined.

Lemma bound_parameters_typed_witness :
  let actuals := [VPtr true p_void 4096; VInt t_char 100;
                  VPtr false p_FILE 8192] in
  bind_parameters gcc_PRETTY_FUNCTION (parameters my_write)
    (map container (arguments 4096 100 8192)) = Returns actuals /\
  Forall2 (fun T x => type_of x = T) (parameters my_write) actuals.
Proof.
  intros actuals. split; [reflexivity |].
  apply (bound_parameters_typed gcc_PRETTY_FUNCTION (parameters my_write)
           (map container (arguments 4096 100 8192)) actuals).
  reflexivity.
Defined.

Lemma output_failure_after_entry_witness :
  let actuals := [VPtr true p_void 4096; VInt t_ulong 142;
                  VPtr false p_FILE 8192] in
  let run := checked_cast_call_as gcc_PRETTY_FUNCTION unit (Integral t_char)
               my_write_ok (arguments 4096 142 8192) initially in
  (bind_parameters gcc_PRETTY_FUNCTION (parameters my_write_ok)
     (map container (arguments 4096 142 8192)) = Returns actuals /\
   raises (operator_U gcc_PRETTY_FUNCTION (Integral t_char)
             (container (fst (body my_write_ok actuals (state initially)))))
   = true) /\
  raises (fst run) = true /\
  state (snd run) = snd (body my_write_ok actuals (state initially)) /\
  entered (snd run) = actuals :: entered initially.
Proof.
  intros actuals run. split; [split; reflexivity |].
  apply (output_failure_after_entry gcc_PRETTY_FUNCTION unit (Integral t_char)
           my_write_ok (arguments 4096 142 8192) actuals initially);
    reflexivity.
Defined.

Lemma returning_call_entered_once_witness :
  let m' := {| state := tt;
               entered := [[VPtr true p_void 4096; VInt t_char 100;
                            VPtr false p_FILE 8192]] |} in
  checked_cast_call_as gcc_PRETTY_FUNCTION unit (Integral t_char) my_write
    (arguments 4096 100 8192) initially = (Returns (VInt t_char 100), m') /\
  exists actuals,
    bind_parameters gcc_PRETTY_FUNCTION (parameters my_write)
      (map container (arguments 4096 100 8192)) = Returns actuals /\
    state m' = snd (body my_write actuals (state initially)) /\
    entered m' = actuals :: entered initially /\
    operator_U gcc_PRETTY_FUNCTION (Integral t_char)
      (container (fst (body my_write actuals (state initially))))
    = Returns (VInt t_char 100).
Proof.
  intros m'. split; [reflexivity |].
  apply (returning_call_entered_once gcc_PRETTY_FUNCTION unit (Integral t_char)
           my_write (arguments 4096 100 8192) initially m' (VInt t_char 100)).
  reflexivity.
Defined.

Lemma transparent_on_exact_types_witness :
  let args := [VPtr true p_void 4096; VInt t_ulong 142;
               VPtr false p_FILE 8192] in
  map type_of args = parameters my_write_ok /\
  checked_cast_call_as gcc_PRETTY_FUNCTION unit ssize_t my_write_ok args
    initially
  = (Returns (VInt t_long 142), {| state := tt; entered := [args] |}).
Proof.
  intros args. split; [reflexivity |].
  apply (transparent_on_exact_types gcc_PRETTY_FUNCTION unit my_write_ok args
           initially).
  reflexivity.
Defined.

Local Open Scope string_scope.

Lemma first_colon_append_witness :
  String.index 0 ":" "checked_cast<>() overflowed" = None /\
  first_colon "checked_cast<>() overflowed" = "checked_cast<>() overflowed" /\
  first_colon ("checked_cast<>() overflowed" ++ ":" ++ " what")
  = "checked_cast<>() overflowed".
Proof.
  split; [reflexivity |].
  apply (first_colon_append "checked_cast<>() overflowed" " what").
  reflexivity.
Defined.

Local Close Scope string_scope.

Lemma my_write_sizes_witness :
  (0 <= 142 < 2 ^ 64 /\ 127 < 142 < 2 ^ 64 - 128) /\
  raises (fst (demo my_write 4096 142 8192)) = true /\
  snd (demo my_write 4096 142 8192) = initially /\
  should_fail my_write 4096 142 8192 = true.
Proof.
  assert (Hn : 0 <= 142 < 2 ^ 64) by (split; [discriminate | reflexivity]).
  assert (Hcase : 127 < 142 < 2 ^ 64 - 128) by (split; reflexivity).
  split; [split; assumption |].
  exact (proj1 (proj2 (my_write_sizes 4096 142 8192 Hn)) Hcase).
Defined.

Lemma my_write_ok_sizes_witness :
  (0 <= 142 < 2 ^ 64 /\ 127 < 142 < 2 ^ 64 - 128) /\
  raises (fst (demo my_write_ok 4096 142 8192)) = true /\
  should_fail my_write_ok 4096 142 8192 = true.
Proof.
  assert (Hn : 0 <= 142 < 2 ^ 64) by (split; [discriminate | reflexivity]).
  assert (Hcase : 127 < 142 < 2 ^ 64 - 128) by (split; reflexivity).
  split; [split; assumption |].
  exact (proj1 (proj2 (proj2 (my_write_ok_sizes 4096 142 8192 Hn))) Hcase).
Defined.
